(** * ai-job-matcher: the matching pipeline of [job_matcher.py]

    A shallow embedding of class [JobMatcher] and of the library calls it
    makes, followed by the properties of the pipeline.

    - Text is a Rocq [string]; a character is a code point in
      U+0000..U+00FF, for which Python's tables ([str.lower], [str.split]'s
      white space, the regular expression class [\w]) are written out.
    - Python integers are [Z]; a [dict] is an association list in insertion
      order; a [set] of strings is a [gset string].
    - Methods run in a state-and-exception monad over the matcher object,
      the file system and standard output.
    - The similarity score is a real number: the arithmetic of the
      vectorizer is exact in [Sklearn]; [Binary64] has the same formulas with
      every operation rounded to binary64. *)

From Stdlib Require Import ZArith List String Ascii Reals Lra Lia Permutation.
From stdpp Require Import gmap strings list sorting.
From Stdlib Require Import Sorted DecimalString.
From Stdlib Require PrimFloat.

Open Scope string_scope.

(** ** Python strings *)

Module PyStr.

Definition code (c : ascii) : N := N_of_ascii c.

Definition in_range (lo hi : N) (c : ascii) : bool :=
  ((lo <=? code c) && (code c <=? hi))%N.

(** [str.lower], one character: A-Z, and U+00C0..U+00DE but for the
    multiplication sign U+00D7, move up by 32. Within U+0000..U+00FF
    [str.lower] works character by character; beyond it does not (the Greek
    capital sigma is lowered according to its place in the word), and no
    property here speaks of such text. *)
Definition lower_char (c : ascii) : ascii :=
  if in_range 65 90 c || (in_range 192 222 c && negb (code c =? 215)%N)
  then ascii_of_N (code c + 32)
  else c.

Fixpoint lower (s : string) : string :=
  match s with
  | EmptyString => EmptyString
  | String c s' => String (lower_char c) (lower s')
  end.

(** The characters [str.split()] separates on: TAB..CR, FS..US, SPACE,
    NEL and NBSP. *)
Definition isspace (c : ascii) : bool :=
  in_range 9 13 c || in_range 28 32 c || (code c =? 133)%N || (code c =? 160)%N.

(** [string.punctuation] *)
Definition punctuation : string :=
  String "!" (String "034" "#$%&'()*+,-./:;<=>?@[\]^_`{|}~").

(** [str.maketrans(x, y, z)]: a table from characters to their image,
    [None] for the characters of [z], which [translate] deletes. *)
Fixpoint maketrans_delete (z : string) (table : gmap N (option ascii))
  : gmap N (option ascii) :=
  match z with
  | EmptyString => table
  | String c z' => maketrans_delete z' (<[code c := None]> table)
  end.

Fixpoint maketrans_map (x y : string) (table : gmap N (option ascii))
  : gmap N (option ascii) :=
  match x, y with
  | String a x', String b y' => maketrans_map x' y' (<[code a := Some b]> table)
  | _, _ => table
  end.

Definition maketrans (x y z : string) : gmap N (option ascii) :=
  maketrans_delete z (maketrans_map x y ∅).

(** [str.translate(table)] *)
Fixpoint translate (s : string) (table : gmap N (option ascii)) : string :=
  match s with
  | EmptyString => EmptyString
  | String c s' =>
      match table !! code c with
      | Some None => translate s' table
      | Some (Some d) => String d (translate s' table)
      | None => String c (translate s' table)
      end
  end.

Fixpoint rev_onto (cur acc : string) : string :=
  match cur with
  | EmptyString => acc
  | String c cur' => rev_onto cur' (String c acc)
  end.

(** The loop of [str.split()]: [cur] holds the characters of the word
    being read, last one first; a white space character closes it. *)
Fixpoint split_loop (cur : string) (s : string) : list string :=
  match s with
  | EmptyString =>
      match cur with
      | EmptyString => []
      | _ => [rev_onto cur EmptyString]
      end
  | String c s' =>
      if isspace c then
        match cur with
        | EmptyString => split_loop EmptyString s'
        | _ => rev_onto cur EmptyString :: split_loop EmptyString s'
        end
      else split_loop (String c cur) s'
  end.

Definition split (s : string) : list string := split_loop EmptyString s.

(** [sep.join(words)] *)
Definition join (sep : string) (words : list string) : string :=
  String.concat sep words.

(** [len(s)] *)
Definition len (s : string) : Z := Z.of_nat (String.length s).

(** [l[:n]] for a Python integer [n]: a negative [n] counts from the end. *)
Definition slice_to {A} (l : list A) (n : Z) : list A :=
  if (0 <=? n)%Z then firstn (Z.to_nat n) l
  else firstn (Z.to_nat (Z.of_nat (length l) + n)) l.

End PyStr.

Import PyStr.

(** ** Stable sorting

    [sorted] keeps the elements it cannot tell apart in their original order,
    also with [reverse=True]. [before y x] says that [y], met later than [x],
    has to come out first. *)

Module Sorting.

Fixpoint insert_stable {A} (before : A -> A -> bool) (x : A) (l : list A)
  : list A :=
  match l with
  | [] => [x]
  | y :: l' =>
      if before y x then y :: insert_stable before x l' else x :: y :: l'
  end.

Fixpoint sort_stable {A} (before : A -> A -> bool) (l : list A) : list A :=
  match l with
  | [] => []
  | x :: l' => insert_stable before x (sort_stable before l')
  end.

End Sorting.

(** ** Exceptions and results *)

Inductive exn : Type :=
| FileNotFoundError
| IsADirectoryError
| PermissionError
| UnicodeDecodeError
| ValueError.

(** [isinstance(e, cls)]: [UnicodeDecodeError] derives from [ValueError],
    the three file errors are unrelated to each other. *)
Definition isinstance (e cls : exn) : bool :=
  match e, cls with
  | FileNotFoundError, FileNotFoundError => true
  | IsADirectoryError, IsADirectoryError => true
  | PermissionError, PermissionError => true
  | UnicodeDecodeError, UnicodeDecodeError => true
  | UnicodeDecodeError, ValueError => true
  | ValueError, ValueError => true
  | _, _ => false
  end.

Inductive outcome (A : Type) : Type :=
| Ret (a : A)
| Raise (e : exn).

Arguments Ret {A} a.
Arguments Raise {A} e.

(** ** The vectorizer and the cosine similarity of scikit-learn *)

Module Sklearn.

Local Open Scope R_scope.

(** Modelled from the spec: scikit-learn is not part of the repository.
    The class [\w] of the token pattern: ASCII letters, digits and the
    underscore, and the letters and numeric characters of U+0080..U+00FF. *)
Definition is_word_char (c : ascii) : bool :=
  in_range 48 57 c || in_range 65 90 c || (code c =? 95)%N
  || in_range 97 122 c
  || (code c =? 170)%N || in_range 178 179 c || (code c =? 181)%N
  || in_range 185 186 c || in_range 188 190 c
  || in_range 192 214 c || in_range 216 246 c || in_range 248 255 c.

(** Modelled from the spec: a run of word characters is a token when it has
    two characters or more. *)
Definition emit (cur : string) (rest : list string) : list string :=
  if (2 <=? String.length cur)%nat then rev_onto cur EmptyString :: rest
  else rest.

(** Modelled from the spec: the matches of the vectorizer's default token
    pattern, the maximal runs of two or more word characters. [cur] is the
    run being read, last character first. *)
Fixpoint findall_loop (cur : string) (s : string) : list string :=
  match s with
  | EmptyString => emit cur []
  | String c s' =>
      if is_word_char c then findall_loop (String c cur) s'
      else emit cur (findall_loop EmptyString s')
  end.

Definition findall_tokens (s : string) : list string :=
  findall_loop EmptyString s.

(** Modelled from the spec: the analyzer of
    [TfidfVectorizer(stop_words='english')]: lower-case the document, take
    its tokens, drop those of the vectorizer's own stopword list (the
    scorer's second, independent stopword filter of section 4.3). *)
Definition analyze (stop : gset string) (doc : string) : list string :=
  List.filter (fun t => bool_decide (t ∉ stop)) (findall_tokens (lower doc)).

(** Modelled from the spec: the number of occurrences of term [t] in a
    document, its raw term frequency. *)
Definition count (t : string) (tokens : list string) : nat :=
  count_occ String.string_dec tokens t.

(** Modelled from the spec: the terms of the corpus, each once, in
    alphabetical order. *)
Definition vocabulary (docs : list (list string)) : list string :=
  Sorting.sort_stable String.ltb (remove_dups (concat docs)).

(** Modelled from the spec: the occurrences of [t] over the corpus, and the
    number of documents [t] occurs in. *)
Definition term_frequency (docs : list (list string)) (t : string) : nat :=
  fold_right (fun d acc => (count t d + acc)%nat) 0%nat docs.

Definition document_frequency (docs : list (list string)) (t : string) : nat :=
  length (List.filter (fun d => bool_decide (t ∈ d)) docs).

(** Modelled from the spec: [max_features]: when the vocabulary has more
    than [limit] terms, the [limit] terms of highest frequency over the
    corpus are kept (section 4.3: at most 100 terms). Terms of equal
    frequency are taken in vocabulary order here. *)
Definition limit_features (docs : list (list string)) (limit : nat)
    (vocab : list string) : list string :=
  if (length vocab <=? limit)%nat then vocab
  else
    let top :=
      firstn limit
        (Sorting.sort_stable
           (fun y x => (term_frequency docs x <? term_frequency docs y)%nat)
           vocab) in
    List.filter (fun t => bool_decide (t ∈ top)) vocab.

(** Modelled from the spec: the smoothed inverse document frequency,
    [idf(t) = ln((1+n)/(1+df(t))) + 1]. *)
Definition idf (n df : nat) : R := ln ((1 + INR n) / (1 + INR df)) + 1.

(** Modelled from the spec: the Euclidean norm of a row and the product of
    two rows. *)
Fixpoint sum_squares (v : list R) : R :=
  match v with
  | [] => 0
  | x :: v' => x * x + sum_squares v'
  end.

Definition norm_l2 (v : list R) : R := sqrt (sum_squares v).

(** Modelled from the spec: L2 normalisation of a row; a row of norm zero
    is left as it is. *)
Definition normalize (v : list R) : list R :=
  if Req_dec_T (norm_l2 v) 0 then v else map (fun x => x / norm_l2 v) v.

Fixpoint dot (u v : list R) : R :=
  match u, v with
  | x :: u', y :: v' => x * y + dot u' v'
  | _, _ => 0
  end.

(** Modelled from the spec: the row of a document over the kept terms, term
    count times idf, L2-normalised. *)
Definition tfidf_row (docs : list (list string)) (kept : list string)
    (d : list string) : list R :=
  normalize
    (map (fun t => INR (count t d) * idf (length docs) (document_frequency docs t))
         kept).

(** Modelled from the spec: [TfidfVectorizer(stop_words='english',
    max_features=...).fit_transform(raw_documents)]: one L2-normalised row
    of term count times idf per document; [ValueError] when no term is
    left to build a vocabulary from. *)
Definition fit_transform (stop : gset string) (max_features : nat)
    (raw_documents : list string) : outcome (list (list R)) :=
  let docs := map (analyze stop) raw_documents in
  match vocabulary docs with
  | [] => Raise ValueError
  | vocab =>
      let kept := limit_features docs max_features vocab in
      Ret (map (tfidf_row docs kept) docs)
  end.

(** Modelled from the spec: [cosine_similarity(X, Y)] of two one-row
    matrices: both rows are L2-normalised, then multiplied. *)
Definition cosine_similarity (x y : list R) : R :=
  dot (normalize x) (normalize y).

End Sklearn.

(** ** The same arithmetic in binary64 *)

Module Binary64.

Import PrimFloat.




(** Modelled from the spec: the sum of the squares of a row, accumulated
    from the left, each operation rounded. *)
Definition sum_squares (v : list float) : float :=
  fold_left (fun acc x => (acc + x * x)%float) v 0%float.

Definition norm_l2 (v : list float) : float := sqrt (sum_squares v).

(** Modelled from the spec: L2 normalisation of a row; a row of norm zero
    is left as it is. *)
Definition normalize (v : list float) : list float :=
  if (norm_l2 v =? 0)%float then v
  else map (fun x => (x / norm_l2 v)%float) v.

Fixpoint dot_from (acc : float) (u v : list float) : float :=
  match u, v with
  | x :: u', y :: v' => dot_from (acc + x * y)%float u' v'
  | _, _ => acc
  end.

(** Modelled from the spec: [cosine_similarity(X, Y)] of two rows. *)
Definition cosine_similarity (x y : list float) : float :=
  dot_from 0%float (normalize x) (normalize y).


End Binary64.

(** ** The matcher object and the world it runs in *)

(** The methods of [JobMatcher], for the log of calls. *)
Inductive method : Type :=
| m_load_file
| m_preprocess_text
| m_extract_keywords
| m_calculate_match_score
| m_find_matched_skills
| m_find_missing_skills
| m_match.

Record JobMatcher : Type := { stop_words : gset string }.

(** [files p] is what [open(p, 'r', encoding='utf-8')] followed by [read()]
    gives: the text of the file, or the exception raised. [calls] is a ghost
    log of the methods entered, oldest first. *)
Record state : Type := {
  self : JobMatcher;
  files : string -> outcome string;
  stdout : list string;
  calls : list method
}.

Definition M (A : Type) : Type := state -> outcome A * state.

#[global] Instance M_ret : MRet M := fun A (a : A) st => (Ret a, st).

#[global] Instance M_bind : MBind M := fun A B (f : A -> M B) (m : M A) st =>
  match m st with
  | (Ret a, st') => f a st'
  | (Raise e, st') => (Raise e, st')
  end.

Definition raise {A} (e : exn) : M A := fun st => (Raise e, st).

(** [try: body except cls: handler] *)
Definition try_except {A} (body : M A) (cls : exn) (handler : M A) : M A :=
  fun st =>
    match body st with
    | (Raise e, st') => if isinstance e cls then handler st' else (Raise e, st')
    | r => r
    end.

Definition get_self : M JobMatcher := fun st => (Ret (self st), st).

Definition set_self (s : JobMatcher) : M unit := fun st =>
  (Ret tt, {| self := s; files := files st; stdout := stdout st; calls := calls st |}).

(** [print(line)]. Standard output is taken to accept every text: a stream
    whose encoding cannot represent [line] makes Python's [print] raise, which
    is not modelled. *)
Definition print (line : string) : M unit := fun st =>
  (Ret tt, {| self := self st; files := files st;
              stdout := stdout st ++ [line]; calls := calls st |}).

Definition enter (m : method) : M unit := fun st =>
  (Ret tt, {| self := self st; files := files st;
              stdout := stdout st; calls := calls st ++ [m] |}).

Definition open_read (file_path : string) : M string := fun st =>
  (files st file_path, st).

Definition lift {A} (r : outcome A) : M A := fun st => (r, st).

(** A Python [dict] from words to counts, in insertion order. *)
Module Dict.

Fixpoint get (d : list (string * Z)) (k : string) (default : Z) : Z :=
  match d with
  | [] => default
  | (k', v) :: d' => if String.eqb k' k then v else get d' k default
  end.

(** [d[k] = v]: a key already there keeps its place. *)
Fixpoint set (d : list (string * Z)) (k : string) (v : Z) : list (string * Z) :=
  match d with
  | [] => [(k, v)]
  | (k', v') :: d' =>
      if String.eqb k' k then (k', v) :: d' else (k', v') :: set d' k v
  end.

End Dict.

Record MatchResult : Type := {
  match_score : R;
  match_percentage : R;
  matched_skills : list string;
  missing_skills : list string;
  resume_keywords : list string;
  job_keywords : list string
}.

Section Matcher.

(** [stopwords.words('english')] of NLTK, and the stopword list that
    [stop_words='english'] selects in scikit-learn: tables of the two
    libraries, not of the repository. *)
Variable english_stopwords : list string.
Variable ENGLISH_STOP_WORDS : gset string.

Definition __init__ : M unit :=
  set_self {| stop_words := list_to_set english_stopwords |};;
  s ← get_self;
  set_self {| stop_words :=
    stop_words s ∪ list_to_set ["job"; "role"; "position"; "company"; "team"; "work"] |}.

Definition load_file (file_path : string) : M string :=
  enter m_load_file;;
  try_except (open_read file_path) FileNotFoundError
    (print ("Error: File '" ++ file_path ++ "' not found.");; mret "").

Definition preprocess_text (text : string) : M string :=
  enter m_preprocess_text;;
  let text := lower text in
  let text := translate text (maketrans "" "" punctuation) in
  let words := split text in
  s ← get_self;
  let words :=
    List.filter (fun word => negb (bool_decide (word ∈ stop_words s))
                        && (2 <? len word)%Z) words in
  mret (join " " words).

Definition count_words (words : list string) : list (string * Z) :=
  fold_left (fun word_freq word =>
               Dict.set word_freq word (Dict.get word_freq word 0 + 1)%Z)
            words [].

Definition extract_keywords (text : string) (num_keywords : Z)
  : M (list string) :=
  enter m_extract_keywords;;
  let words := split text in
  let word_freq := count_words words in
  let sorted_keywords :=
    Sorting.sort_stable (fun y x => (snd x <? snd y)%Z) word_freq in
  mret (map fst (slice_to sorted_keywords num_keywords)).

Definition calculate_match_score (resume_text job_text : string) : M R :=
  enter m_calculate_match_score;;
  try_except
    (tfidf_matrix ← lift (Sklearn.fit_transform ENGLISH_STOP_WORDS 100
                             [resume_text; job_text]);
     mret (Sklearn.cosine_similarity (nth 0 tfidf_matrix [])
                                     (nth 1 tfidf_matrix [])))
    ValueError
    (mret 0%R).

Definition find_matched_skills (resume_keywords job_keywords : list string)
  : M (list string) :=
  enter m_find_matched_skills;;
  let resume_set : gset string := list_to_set resume_keywords in
  let job_set : gset string := list_to_set job_keywords in
  mret (elements (resume_set ∩ job_set)).

Definition find_missing_skills (resume_keywords job_keywords : list string)
  : M (list string) :=
  enter m_find_missing_skills;;
  let resume_set : gset string := list_to_set resume_keywords in
  let job_set : gset string := list_to_set job_keywords in
  mret (elements (job_set ∖ resume_set)).

(** [not text] *)
Definition is_empty (text : string) : bool :=
  match text with EmptyString => true | _ => false end.

Definition match_ (resume_path job_path : string) : M (option MatchResult) :=
  enter m_match;;
  resume_text ← load_file resume_path;
  job_text ← load_file job_path;
  if is_empty resume_text || is_empty job_text then mret None
  else
    resume_processed ← preprocess_text resume_text;
    job_processed ← preprocess_text job_text;
    resume_keywords ← extract_keywords resume_processed 30;
    job_keywords ← extract_keywords job_processed 30;
    match_score ← calculate_match_score resume_processed job_processed;
    matched_skills ← find_matched_skills resume_keywords job_keywords;
    missing_skills ← find_missing_skills resume_keywords job_keywords;
    mret (Some {| match_score := match_score;
                  match_percentage := match_score * 100;
                  matched_skills := matched_skills;
                  missing_skills := missing_skills;
                  resume_keywords := resume_keywords;
                  job_keywords := job_keywords |}).

End Matcher.

(** ** What the specification says the normalizer does (section 4.1) *)

Module SpecNormalizer.

(** The characters classified as ASCII punctuation: the printable ASCII
    characters that are neither letters, digits nor the space. *)
Definition is_ascii_punctuation (c : ascii) : bool :=
  in_range 33 47 c || in_range 58 64 c || in_range 91 96 c || in_range 123 126 c.

Fixpoint remove_chars (drop : ascii -> bool) (s : string) : string :=
  match s with
  | EmptyString => EmptyString
  | String c s' =>
      if drop c then remove_chars drop s' else String c (remove_chars drop s')
  end.

Definition dropped (StopwordSet : gset string) (token : string) : bool :=
  bool_decide (token ∈ StopwordSet) || (String.length token <=? 2)%nat.

(** Steps (a) to (e), in order. *)
Definition normalize (StopwordSet : gset string) (text : string) : string :=
  let lowered := lower text in
  let stripped := remove_chars is_ascii_punctuation lowered in
  let tokens := split stripped in
  let surviving := List.filter (fun t => negb (dropped StopwordSet t)) tokens in
  String.concat " " surviving.

End SpecNormalizer.

(** ** Running a method *)

Definition result_of {A} (m : M A) (st : state) : outcome A := fst (m st).
Definition state_after {A} (m : M A) (st : state) : state := snd (m st).

(** The state once method [m] has been entered. *)
Definition logged (m : method) (st : state) : state := snd (enter m st).

(** The set a method returned as a list. *)
Definition returned_set (r : outcome (list string)) : option (gset string) :=
  match r with
  | Ret l => Some (list_to_set l)
  | Raise _ => None
  end.

(** Method [m] leaves the stopword set of the matcher as it found it. *)
Definition keeps_stop_words {A} (m : M A) : Prop :=
  forall st, stop_words (self (state_after m st)) = stop_words (self st).

(** [JobMatcher()] in a world with the given files, nothing printed yet. *)
Definition new_matcher (english_stopwords : list string)
    (fs : string -> outcome string) : state :=
  state_after (__init__ english_stopwords)
    {| self := {| stop_words := ∅ |}; files := fs; stdout := []; calls := [] |}.

(** A read that does not fail for a reason other than a missing file. *)
Definition found_or_missing (r : outcome string) : Prop :=
  forall e, r = Raise e -> e = FileNotFoundError.

(** A read that gives [match] no text: the file is empty or missing. *)
Definition no_text (r : outcome string) : Prop :=
  r = Ret "" \/ r = Raise FileNotFoundError.

(** Two worlds to run [match] in: the resume is missing and the job path is
    a directory; the resume is an empty file and the job description is not
    UTF-8 text. *)
Definition missing_and_directory (p : string) : outcome string :=
  if String.eqb p "jobs" then Raise IsADirectoryError
  else Raise FileNotFoundError.

Definition empty_and_binary (p : string) : outcome string :=
  if String.eqb p "resume.txt" then Ret ""
  else if String.eqb p "job.pdf" then Raise UnicodeDecodeError
  else Raise FileNotFoundError.

(** The value [calculate_match_score] computes: the cosine of the two rows,
    or zero when the vectorizer raises. *)
Definition similarity (ENGLISH_STOP_WORDS : gset string)
    (resume_text job_text : string) : R :=
  match Sklearn.fit_transform ENGLISH_STOP_WORDS 100 [resume_text; job_text] with
  | Ret tfidf_matrix =>
      Sklearn.cosine_similarity (nth 0 tfidf_matrix []) (nth 1 tfidf_matrix [])
  | Raise _ => 0%R
  end.

(** Three section signs, U+00A7: a text that the normalizer returns as it
    is and in which the vectorizer finds no token. *)
Definition section_signs : string :=
  String "167" (String "167" (String "167" EmptyString)).

(** [s] is within [tolerance] of 1. *)
Definition close_to_one (tolerance s : R) : Prop := (Rabs (s - 1) <= tolerance)%R.

(** Every character of [s] satisfies [P]. *)
Fixpoint chars_ok (P : ascii -> bool) (s : string) : Prop :=
  match s with
  | EmptyString => True
  | String c s' => P c = true /\ chars_ok P s'
  end.

(** A word, as [str.split()] produces them: not empty, no white space. *)
Definition is_word (w : string) : Prop :=
  w <> EmptyString /\ chars_ok (fun c => negb (isspace c)) w.

(** A character that lower-casing and the removal of punctuation leave alone. *)
Definition clean (c : ascii) : bool :=
  Ascii.eqb (lower_char c) c && negb (SpecNormalizer.is_ascii_punctuation c).

(** ** Notions for the further properties *)

(** The number of times [word] occurs in [words]. *)
Definition occurrences (word : string) (words : list string) : Z :=
  Z.of_nat (count_occ String.string_dec words word).

(** [a] is at least as frequent as [b] in [words]. *)
Definition at_least_as_frequent (words : list string) (a b : string) : Prop :=
  (occurrences b words <= occurrences a words)%Z.

(** Entry [a] of the dictionary has a count not below that of entry [b]. *)
Definition count_not_below (a b : string * Z) : Prop := (snd b <= snd a)%Z.

(** The distinct words of a list, in the order of their first occurrence. *)
Fixpoint first_seen (words : list string) : list string :=
  match words with
  | [] => []
  | w :: words' =>
      w :: List.filter (fun x => negb (String.eqb w x)) (first_seen words')
  end.

(** The list [extract_keywords] returns. *)
Definition keywords_value (text : string) (num_keywords : Z) : list string :=
  map fst (slice_to
    (Sorting.sort_stable (fun y x => (snd x <? snd y)%Z) (count_words (split text)))
    num_keywords).

(** The calls of a run of [match] that goes through the whole pipeline. *)
Definition whole_pipeline : list method :=
  [m_match; m_load_file; m_load_file; m_preprocess_text; m_preprocess_text;
   m_extract_keywords; m_extract_keywords; m_calculate_match_score;
   m_find_matched_skills; m_find_missing_skills].

(** A read that gives [match] a text to work on. *)
Definition has_text (r : outcome string) : Prop :=
  exists text, r = Ret text /\ text <> "".

(** ** The report of [display_results] *)

(** [s * n] *)
Fixpoint repeat_string (s : string) (n : nat) : string :=
  match n with
  | O => EmptyString
  | S n' => s ++ repeat_string s n'
  end.

(** [str(n)] of an integer, as an f-string prints it. *)
Definition str_int (n : Z) : string := NilZero.string_of_int (Z.to_int n).

(** [for x in l: body(x)] *)
Fixpoint for_each {A} (l : list A) (body : A -> M unit) : M unit :=
  match l with
  | [] => mret tt
  | x :: l' => body x;; for_each l' body
  end.

(** [sorted(skills)]: strings in increasing order of their code points. *)
Definition sorted (skills : list string) : list string :=
  Sorting.sort_stable String.ltb skills.

Section Display.

(** [format_1f x] is [f"{x:.1f}"], the decimal rendering of a float by the
    interpreter. [check_mark] and [ballot_x] are the one-character strings
    U+2713 and U+2717 of the report, which lie outside U+0000..U+00FF. *)
Variable format_1f : R -> string.
Variable check_mark ballot_x : string.

Definition display_results (results : option MatchResult) : M unit :=
  match results with
  | None => print "Error: Could not process files."
  | Some results =>
      print (String "010" (repeat_string "=" 60));;
      print "JOB MATCHING RESULTS";;
      print (repeat_string "=" 60);;
      let match_pct := match_percentage results in
      print (String "010" ("Match Score: " ++ format_1f match_pct ++ "%"));;
      (if Rge_dec match_pct 80 then
         print ("Status: EXCELLENT MATCH " ++ check_mark)
       else if Rge_dec match_pct 60 then
         print ("Status: GOOD MATCH " ++ check_mark)
       else if Rge_dec match_pct 40 then
         print "Status: MODERATE MATCH"
       else
         print "Status: WEAK MATCH");;
      print (String "010" ("Matched Skills ("
               ++ str_int (Z.of_nat (length (matched_skills results))) ++ "):"));;
      (match matched_skills results with
       | [] => print "  (No overlapping skills found)"
       | _ =>
           for_each (sorted (matched_skills results))
             (fun skill => print ("  " ++ check_mark ++ " " ++ skill))
       end);;
      print (String "010" ("Missing Skills ("
               ++ str_int (Z.of_nat (length (missing_skills results))) ++ "):"));;
      (match missing_skills results with
       | [] => print "  (All job skills are present in resume)"
       | _ =>
           for_each (slice_to (sorted (missing_skills results)) 10)
             (fun skill => print ("  " ++ ballot_x ++ " " ++ skill));;
           if (10 <? Z.of_nat (length (missing_skills results)))%Z then
             print ("  ... and "
                    ++ str_int (Z.of_nat (length (missing_skills results)) - 10)
                    ++ " more")
           else mret tt
       end);;
      print (String "010" (repeat_string "=" 60))
  end.

(** What a caller does with [match]: run it and display what it returns. *)
Definition match_and_display (ENGLISH_STOP_WORDS : gset string)
    (resume_path job_path : string) : M unit :=
  results ← match_ ENGLISH_STOP_WORDS resume_path job_path;
  display_results results.

End Display.

(** The line [load_file] prints for a missing file, if the file is missing. *)
Definition missing_message (st : state) (file_path : string) : list string :=
  match files st file_path with
  | Raise FileNotFoundError =>
      [("Error: File '" ++ file_path ++ "' not found.")%string]
  | _ => []
  end.

(** The number of lines the report spends on a list of skills, of which it
    shows [shown] at most. *)
Definition lines_for (shown : option nat) (skills : list string) : nat :=
  match skills, shown with
  | [], _ => 1
  | _, None => length skills
  | _, Some cap =>
      (Nat.min cap (length skills) + if (cap <? length skills)%nat then 1 else 0)%nat
  end.

(** [m] returns after printing [lines], and does nothing else. *)
Definition prints (m : M unit) (lines : list string) : Prop :=
  forall st,
    m st = (Ret tt, {| self := self st; files := files st;
                       stdout := stdout st ++ lines; calls := calls st |}).

(** The words that [__init__] adds to the stopwords of NLTK. *)
Definition domain_words : list string :=
  ["job"; "role"; "position"; "company"; "team"; "work"].

(** [a] is not after [b] in the order of [sorted]. *)
Definition not_after (a b : string) : Prop := String.leb a b = true.

(** * Properties *)

(** ** Strings *)

Section StringFacts.

Lemma lower_char_idem c : lower_char (lower_char c) = lower_char c.
Proof. destruct c as [[] [] [] [] [] [] [] []]; reflexivity. Qed.

Lemma punctuation_table c :
  maketrans "" "" punctuation !! code c =
  if SpecNormalizer.is_ascii_punctuation c then Some None else None.
Proof. destruct c as [[] [] [] [] [] [] [] []]; vm_compute; reflexivity. Qed.

Lemma translate_punctuation s :
  translate s (maketrans "" "" punctuation) =
  SpecNormalizer.remove_chars SpecNormalizer.is_ascii_punctuation s.
Proof.
  induction s as [|c s IH]; [reflexivity|].
  cbn [translate SpecNormalizer.remove_chars].
  rewrite punctuation_table.
  destruct (SpecNormalizer.is_ascii_punctuation c); rewrite IH; reflexivity.
Qed.

Lemma clean_lower_char c :
  SpecNormalizer.is_ascii_punctuation (lower_char c) = false ->
  clean (lower_char c) = true.
Proof.
  intros H. unfold clean. rewrite lower_char_idem, H.
  rewrite Ascii.eqb_refl. reflexivity.
Qed.

Lemma clean_stripped s :
  chars_ok clean
    (SpecNormalizer.remove_chars SpecNormalizer.is_ascii_punctuation (lower s)).
Proof.
  induction s as [|c s IH]; simpl; [exact I|].
  destruct (SpecNormalizer.is_ascii_punctuation (lower_char c)) eqn:E.
  - exact IH.
  - simpl. split; [apply clean_lower_char; exact E | exact IH].
Qed.

Lemma lower_clean s : chars_ok clean s -> lower s = s.
Proof.
  induction s as [|c s IH]; simpl; [reflexivity|].
  intros [Hc Hs]. rewrite (IH Hs). f_equal.
  unfold clean in Hc. apply andb_true_iff in Hc as [Hc _].
  apply Ascii.eqb_eq in Hc. exact Hc.
Qed.

Lemma remove_chars_clean s :
  chars_ok clean s ->
  SpecNormalizer.remove_chars SpecNormalizer.is_ascii_punctuation s = s.
Proof.
  induction s as [|c s IH]; simpl; [reflexivity|].
  intros [Hc Hs]. unfold clean in Hc. apply andb_true_iff in Hc as [_ Hc].
  apply negb_true_iff in Hc. rewrite Hc, (IH Hs). reflexivity.
Qed.

Lemma append_cons c (a b : string) : String c a ++ b = String c (a ++ b).
Proof. reflexivity. Qed.

Lemma append_empty_l (b : string) : "" ++ b = b.
Proof. reflexivity. Qed.

Lemma append_empty_r s : s ++ "" = s.
Proof.
  induction s as [|c s IH]; [reflexivity|].
  rewrite append_cons, IH. reflexivity.
Qed.

Lemma chars_ok_append P a b :
  chars_ok P a -> chars_ok P b -> chars_ok P (a ++ b).
Proof.
  induction a as [|c a IH]; [intros _ Hb; exact Hb|].
  rewrite append_cons. simpl.
  intros [Hc Ha] Hb. split; [exact Hc | apply IH; assumption].
Qed.

Lemma rev_onto_rev_onto a b c :
  rev_onto (rev_onto a b) c = rev_onto b (a ++ c).
Proof.
  revert b c. induction a as [|x a IH]; intros b c; [reflexivity|].
  rewrite append_cons. simpl. rewrite IH. reflexivity.
Qed.

Lemma rev_onto_twice w : rev_onto (rev_onto w "") "" = w.
Proof. rewrite rev_onto_rev_onto. simpl. apply append_empty_r. Qed.

Lemma rev_onto_empty cur acc :
  rev_onto cur acc = "" -> cur = "" /\ acc = "".
Proof.
  revert acc. induction cur as [|c cur IH]; intros acc; simpl.
  - intros ->. split; reflexivity.
  - intros H. apply IH in H as [_ H]. discriminate H.
Qed.

Lemma chars_ok_rev_onto P cur acc :
  chars_ok P cur -> chars_ok P acc -> chars_ok P (rev_onto cur acc).
Proof.
  revert acc. induction cur as [|c cur IH]; intros acc; simpl; [tauto|].
  intros [Hc Hcur] Hacc. apply IH; [exact Hcur | split; assumption].
Qed.

(** The words [split] returns are made of the characters of its input. *)
Lemma split_loop_chars P cur s :
  chars_ok P cur -> chars_ok P s -> Forall (chars_ok P) (split_loop cur s).
Proof.
  revert cur. induction s as [|c s IH]; intros cur Hcur Hs; simpl.
  - destruct cur; constructor; [|constructor].
    apply chars_ok_rev_onto; [exact Hcur | exact I].
  - destruct Hs as [Hc Hs]. destruct (isspace c).
    + destruct cur.
      * apply IH; [exact I | exact Hs].
      * constructor; [|apply IH; [exact I | exact Hs]].
        apply chars_ok_rev_onto; [exact Hcur | exact I].
    + apply IH; [split; assumption | exact Hs].
Qed.

(** They are not empty and hold no white space. *)
Lemma split_loop_words cur s :
  chars_ok (fun c => negb (isspace c)) cur -> Forall is_word (split_loop cur s).
Proof.
  assert (Hw : forall c cur, chars_ok (fun c => negb (isspace c)) (String c cur) ->
               is_word (rev_onto (String c cur) "")).
  { intros c0 cur0 H0. split.
    - intros E. apply rev_onto_empty in E as [E _]. discriminate E.
    - apply chars_ok_rev_onto; [exact H0 | exact I]. }
  revert cur. induction s as [|c s IH]; intros cur Hcur; simpl.
  - destruct cur; constructor; [apply Hw; exact Hcur | constructor].
  - destruct (isspace c) eqn:E.
    + destruct cur.
      * apply IH. exact I.
      * constructor; [apply Hw; exact Hcur | apply IH; exact I].
    + apply IH. simpl. split; [rewrite E; reflexivity | exact Hcur].
Qed.

Lemma split_loop_word_prefix w cur rest :
  chars_ok (fun c => negb (isspace c)) w ->
  split_loop cur (w ++ rest) = split_loop (rev_onto w cur) rest.
Proof.
  revert cur. induction w as [|c w IH]; intros cur; [reflexivity|].
  rewrite append_cons. simpl.
  intros [Hc Hw]. apply negb_true_iff in Hc. rewrite Hc.
  apply IH. exact Hw.
Qed.

(** Splitting what [join] made of words gives the words back. *)
Lemma split_join ws : Forall is_word ws -> split (join " " ws) = ws.
Proof.
  unfold split, join. induction ws as [|w ws IH]; intros H; [reflexivity|].
  inversion H as [|? ? [Hne Hw] Hws]; subst.
  assert (Hrev : rev_onto w "" <> "").
  { intros E. apply rev_onto_empty in E as [E _]. contradiction. }
  destruct ws as [|w2 ws].
  - cbn [String.concat]. rewrite <- (append_empty_r w) at 1.
    rewrite (split_loop_word_prefix w "" "" Hw). simpl.
    destruct (rev_onto w "") eqn:E; [contradiction|].
    rewrite <- E, rev_onto_twice. reflexivity.
  - cbn [String.concat]. rewrite (split_loop_word_prefix w "" _ Hw).
    rewrite append_cons, append_empty_l. cbn [split_loop].
    change (isspace " ") with true. cbv iota.
    destruct (rev_onto w "") eqn:E; [contradiction|].
    rewrite <- E, rev_onto_twice. f_equal. apply IH. exact Hws.
Qed.

Lemma chars_ok_join P ws :
  P " "%char = true -> Forall (chars_ok P) ws -> chars_ok P (join " " ws).
Proof.
  intros Hsp. unfold join. induction ws as [|w ws IH]; intros H; [exact I|].
  inversion H as [|? ? Hw Hws]; subst. destruct ws as [|w2 ws].
  - exact Hw.
  - cbn [String.concat]. apply chars_ok_append; [exact Hw|].
    rewrite append_cons, append_empty_l.
    split; [exact Hsp | apply IH; exact Hws].
Qed.

Lemma Forall_filter_sub {A} (P : A -> Prop) f (l : list A) :
  Forall P l -> Forall P (List.filter f l).
Proof.
  induction 1 as [|x l Hx Hl IH]; simpl; [constructor|].
  destruct (f x); [constructor; assumption | assumption].
Qed.

Lemma filter_all_true {A} f (l : list A) :
  Forall (fun x => f x = true) l -> List.filter f l = l.
Proof.
  induction 1 as [|x l Hx Hl IH]; simpl; [reflexivity|].
  rewrite Hx, IH. reflexivity.
Qed.

Lemma filter_kept {A} f (l : list A) :
  Forall (fun x => f x = true) (List.filter f l).
Proof.
  induction l as [|x l IH]; simpl; [constructor|].
  destruct (f x) eqn:E; [constructor; assumption | assumption].
Qed.

End StringFacts.

(** ** The normalizer *)

Section NormalizerFacts.

Lemma kept_iff_not_dropped (S : gset string) (word : string) :
  negb (bool_decide (word ∈ S)) && (2 <? len word)%Z =
  negb (SpecNormalizer.dropped S word).
Proof.
  unfold SpecNormalizer.dropped, len. rewrite negb_orb. f_equal.
  destruct (Nat.leb_spec (String.length word) 2) as [H|H]; simpl.
  - apply Z.ltb_ge. lia.
  - apply Z.ltb_lt. lia.
Qed.

Lemma preprocess_text_run text st :
  preprocess_text text st =
  (Ret (SpecNormalizer.normalize (stop_words (self st)) text),
   logged m_preprocess_text st).
Proof.
  cbv [preprocess_text mbind M_bind enter get_self mret M_ret logged
       snd self join].
  rewrite translate_punctuation. unfold SpecNormalizer.normalize.
  do 3 f_equal. apply filter_ext. intros w. apply kept_iff_not_dropped.
Qed.

Lemma normalize_tokens_clean S x :
  let tokens :=
    List.filter (fun t => negb (SpecNormalizer.dropped S t))
      (split (SpecNormalizer.remove_chars SpecNormalizer.is_ascii_punctuation
                (lower x))) in
  Forall is_word tokens /\ Forall (chars_ok clean) tokens.
Proof.
  intros tokens. unfold tokens. split; apply Forall_filter_sub.
  - apply split_loop_words. exact I.
  - apply split_loop_chars; [exact I | apply clean_stripped].
Qed.

Lemma normalize_fixed S tokens :
  Forall is_word tokens -> Forall (chars_ok clean) tokens ->
  Forall (fun t => negb (SpecNormalizer.dropped S t) = true) tokens ->
  SpecNormalizer.normalize S (String.concat " " tokens) =
  String.concat " " tokens.
Proof.
  intros Hwords Hclean Hkept.
  assert (Hy : chars_ok clean (String.concat " " tokens)).
  { apply (chars_ok_join clean tokens); [reflexivity | exact Hclean]. }
  unfold SpecNormalizer.normalize.
  rewrite (lower_clean _ Hy), (remove_chars_clean _ Hy).
  pose proof (split_join tokens Hwords) as Hsplit. unfold join in Hsplit.
  rewrite Hsplit, (filter_all_true _ _ Hkept). reflexivity.
Qed.

Lemma normalize_idempotent S x :
  SpecNormalizer.normalize S (SpecNormalizer.normalize S x) =
  SpecNormalizer.normalize S x.
Proof.
  destruct (normalize_tokens_clean S x) as [Hwords Hclean].
  apply normalize_fixed; [exact Hwords | exact Hclean | apply filter_kept].
Qed.

End NormalizerFacts.

(** C8. For every input text, [preprocess_text] returns (and does not raise)
    the text that steps (a) to (e) of the specification give: lower-case,
    strip the ASCII punctuation, split on white space, drop the tokens that
    are in the stopword set or have at most two characters, join with single
    spaces. For the empty text it returns the empty text. *)
Theorem preprocess_text_follows_spec (st : state) (text : string) :
  result_of (preprocess_text text) st =
    Ret (SpecNormalizer.normalize (stop_words (self st)) text)
  /\ result_of (preprocess_text "") st = Ret "".
Proof.
  unfold result_of. rewrite !preprocess_text_run. split; reflexivity.
Qed.

(** C3. Normalization is idempotent: [preprocess_text] applied to its own
    result returns that result again. *)
Theorem preprocess_text_idempotent (st : state) (x : string) :
  exists y,
    result_of (preprocess_text x) st = Ret y
    /\ result_of (preprocess_text y) (state_after (preprocess_text x) st) = Ret y.
Proof.
  exists (SpecNormalizer.normalize (stop_words (self st)) x).
  unfold result_of, state_after. rewrite !preprocess_text_run. simpl.
  split; [reflexivity|]. f_equal. apply normalize_idempotent.
Qed.

(** ** The keyword extractor *)

Section ExtractorFacts.

Lemma insert_stable_perm {A} before (x : A) l :
  Permutation (Sorting.insert_stable before x l) (x :: l).
Proof.
  induction l as [|y l IH]; simpl; [reflexivity|].
  destruct (before y x); [|reflexivity].
  rewrite IH. apply perm_swap.
Qed.

Lemma sort_stable_perm {A} before (l : list A) :
  Permutation (Sorting.sort_stable before l) l.
Proof.
  induction l as [|x l IH]; simpl; [reflexivity|].
  rewrite insert_stable_perm, IH. reflexivity.
Qed.

Lemma dict_set_keys_in d k v x :
  x ∈ map fst (Dict.set d k v) <-> x ∈ map fst d \/ x = k.
Proof.
  induction d as [|[k' v'] d IH]; simpl.
  - rewrite list_elem_of_singleton, elem_of_nil. tauto.
  - destruct (String.eqb_spec k' k) as [->|Hne]; simpl.
    + rewrite !elem_of_cons. tauto.
    + rewrite !elem_of_cons, IH. tauto.
Qed.

Lemma dict_set_keys_nodup d k v :
  NoDup (map fst d) -> NoDup (map fst (Dict.set d k v)).
Proof.
  induction d as [|[k' v'] d IH]; simpl; intros H.
  - apply NoDup_cons. split; [apply not_elem_of_nil | apply NoDup_nil; exact I].
  - apply NoDup_cons in H as [Hnin Hd].
    destruct (String.eqb_spec k' k) as [->|Hne]; simpl.
    + apply NoDup_cons. split; assumption.
    + apply NoDup_cons. split; [|apply IH; exact Hd].
      rewrite dict_set_keys_in. intros [Hin | ->]; [contradiction | congruence].
Qed.

Lemma count_words_from_nodup words acc :
  NoDup (map fst acc) ->
  NoDup (map fst (fold_left
    (fun word_freq word =>
       Dict.set word_freq word (Dict.get word_freq word 0 + 1)%Z) words acc)).
Proof.
  revert acc. induction words as [|w words IH]; intros acc H; simpl; [exact H|].
  apply IH. apply dict_set_keys_nodup. exact H.
Qed.

Lemma count_words_nodup words : NoDup (map fst (count_words words)).
Proof. apply count_words_from_nodup. apply NoDup_nil. exact I. Qed.

Lemma slice_to_sublist {A} (l : list A) n : sublist (slice_to l n) l.
Proof. unfold slice_to. destruct (0 <=? n)%Z; apply sublist_take. Qed.

Lemma slice_to_length {A} (l : list A) n :
  (0 <= n)%Z -> (Z.of_nat (length (slice_to l n)) <= n)%Z.
Proof.
  intros Hn. unfold slice_to. apply Z.leb_le in Hn as Hb. rewrite Hb.
  pose proof (firstn_le_length (Z.to_nat n) l). lia.
Qed.

Lemma extract_keywords_run text num_keywords st :
  extract_keywords text num_keywords st =
  (Ret (map fst (slice_to
          (Sorting.sort_stable (fun y x => (snd x <? snd y)%Z)
             (count_words (split text))) num_keywords)),
   logged m_extract_keywords st).
Proof. reflexivity. Qed.

Lemma extract_keywords_nodup text n :
  NoDup (map fst (slice_to
    (Sorting.sort_stable (fun y x => (snd x <? snd y)%Z)
       (count_words (split text))) n)).
Proof.
  apply (sublist_NoDup _ (map fst (Sorting.sort_stable
           (fun y x => (snd x <? snd y)%Z) (count_words (split text))))).
  - rewrite (Permutation_map fst (sort_stable_perm _ _)).
    apply count_words_nodup.
  - apply fmap_sublist. apply slice_to_sublist.
Qed.

End ExtractorFacts.

(** C4. For every text and every limit, a number of keywords,
    [extract_keywords] returns, and does not raise, a list of at most [limit]
    entries with no keyword twice; for the empty text the list is empty. *)
Theorem extract_keywords_capped_distinct
    (st : state) (text : string) (limit : nat) :
  exists keywords,
    result_of (extract_keywords text (Z.of_nat limit)) st = Ret keywords
    /\ (length keywords <= limit)%nat
    /\ NoDup keywords
    /\ (text = "" -> keywords = []).
Proof.
  eexists. unfold result_of. rewrite extract_keywords_run. simpl.
  split; [reflexivity|]. split; [|split].
  - rewrite length_map.
    pose proof (slice_to_length
                  (Sorting.sort_stable (fun y x => (snd x <? snd y)%Z)
                     (count_words (split text)))
                  (Z.of_nat limit) ltac:(lia)).
    lia.
  - apply extract_keywords_nodup.
  - intros ->. unfold slice_to. simpl.
    destruct (0 <=? Z.of_nat limit)%Z; rewrite firstn_nil; reflexivity.
Qed.

(** ** The skill set comparator *)

Section ComparatorFacts.

Lemma find_matched_skills_run resume_keywords job_keywords st :
  find_matched_skills resume_keywords job_keywords st =
  (Ret (elements ((list_to_set resume_keywords : gset string)
                    ∩ list_to_set job_keywords)),
   logged m_find_matched_skills st).
Proof. reflexivity. Qed.

Lemma find_missing_skills_run resume_keywords job_keywords st :
  find_missing_skills resume_keywords job_keywords st =
  (Ret (elements ((list_to_set job_keywords : gset string)
                    ∖ list_to_set resume_keywords)),
   logged m_find_missing_skills st).
Proof. reflexivity. Qed.

Lemma matched_set A B st :
  returned_set (result_of (find_matched_skills A B) st) =
  Some (list_to_set A ∩ list_to_set B).
Proof.
  unfold result_of. rewrite find_matched_skills_run. simpl.
  rewrite list_to_set_elements_L. reflexivity.
Qed.

Lemma missing_set A B st :
  returned_set (result_of (find_missing_skills A B) st) =
  Some (list_to_set B ∖ list_to_set A).
Proof.
  unfold result_of. rewrite find_missing_skills_run. simpl.
  rewrite list_to_set_elements_L. reflexivity.
Qed.

End ComparatorFacts.

(** C5. As sets, [find_matched_skills(A, B)] is the intersection of the two
    keyword lists and equals [find_matched_skills(B, A)];
    [find_missing_skills(A, B)] is the set of [B] minus the set of [A], job
    minus resume; and [find_missing_skills(A, A)] is empty. *)
Theorem skill_sets_algebra (st : state) (A B : list string) :
  returned_set (result_of (find_matched_skills A B) st)
    = Some (list_to_set A ∩ list_to_set B)
  /\ returned_set (result_of (find_matched_skills A B) st)
    = returned_set (result_of (find_matched_skills B A) st)
  /\ returned_set (result_of (find_missing_skills A B) st)
    = Some (list_to_set B ∖ list_to_set A)
  /\ returned_set (result_of (find_missing_skills A A) st) = Some ∅.
Proof.
  rewrite !matched_set, !missing_set. repeat split.
  - f_equal. apply (comm_L (∩)).
  - f_equal. apply difference_diag_L.
Qed.

(** ** The stopword set is read only *)

Section FrameFacts.

Lemma keeps_ret {A} (a : A) : keeps_stop_words (mret a).
Proof. intros st. reflexivity. Qed.

Lemma keeps_bind {A B} (m : M A) (f : A -> M B) :
  keeps_stop_words m -> (forall a, keeps_stop_words (f a)) ->
  keeps_stop_words (m ≫= f).
Proof.
  intros Hm Hf st. specialize (Hm st).
  unfold state_after, mbind, M_bind in *.
  destruct (m st) as [[a|e] st']; simpl in *.
  - rewrite <- Hm. apply Hf.
  - exact Hm.
Qed.

Lemma keeps_try_except {A} (body handler : M A) cls :
  keeps_stop_words body -> keeps_stop_words handler ->
  keeps_stop_words (try_except body cls handler).
Proof.
  intros Hb Hh st. specialize (Hb st).
  unfold state_after, try_except in *.
  destruct (body st) as [[a|e] st']; simpl in *; [exact Hb|].
  destruct (isinstance e cls); [|exact Hb].
  rewrite <- Hb. apply Hh.
Qed.

Lemma keeps_enter m : keeps_stop_words (enter m).
Proof. intros st. reflexivity. Qed.

Lemma keeps_print line : keeps_stop_words (print line).
Proof. intros st. reflexivity. Qed.

Lemma keeps_open_read p : keeps_stop_words (open_read p).
Proof. intros st. reflexivity. Qed.

Lemma keeps_lift {A} (r : outcome A) : keeps_stop_words (lift r).
Proof. intros st. reflexivity. Qed.

Lemma keeps_get_self {A} (f : JobMatcher -> M A) :
  (forall s, keeps_stop_words (f s)) -> keeps_stop_words (get_self ≫= f).
Proof. intros Hf st. apply (Hf (self st) st). Qed.

Lemma keeps_load_file p : keeps_stop_words (load_file p).
Proof.
  unfold load_file. apply keeps_bind; [apply keeps_enter | intros _].
  apply keeps_try_except; [apply keeps_open_read|].
  apply keeps_bind; [apply keeps_print | intros _; apply keeps_ret].
Qed.

Lemma keeps_preprocess_text text : keeps_stop_words (preprocess_text text).
Proof.
  unfold preprocess_text. apply keeps_bind; [apply keeps_enter | intros _].
  apply keeps_get_self. intros s. apply keeps_ret.
Qed.

Lemma keeps_extract_keywords text n : keeps_stop_words (extract_keywords text n).
Proof.
  unfold extract_keywords.
  apply keeps_bind; [apply keeps_enter | intros _; apply keeps_ret].
Qed.

Lemma keeps_calculate_match_score sk a b :
  keeps_stop_words (calculate_match_score sk a b).
Proof.
  unfold calculate_match_score.
  apply keeps_bind; [apply keeps_enter | intros _].
  apply keeps_try_except; [|apply keeps_ret].
  apply keeps_bind; [apply keeps_lift | intros m; apply keeps_ret].
Qed.

Lemma keeps_find_matched_skills a b : keeps_stop_words (find_matched_skills a b).
Proof.
  unfold find_matched_skills.
  apply keeps_bind; [apply keeps_enter | intros _; apply keeps_ret].
Qed.

Lemma keeps_find_missing_skills a b : keeps_stop_words (find_missing_skills a b).
Proof.
  unfold find_missing_skills.
  apply keeps_bind; [apply keeps_enter | intros _; apply keeps_ret].
Qed.

Lemma keeps_match sk rp jp : keeps_stop_words (match_ sk rp jp).
Proof.
  unfold match_. apply keeps_bind; [apply keeps_enter | intros _].
  apply keeps_bind; [apply keeps_load_file | intros resume_text].
  apply keeps_bind; [apply keeps_load_file | intros job_text].
  destruct (is_empty resume_text || is_empty job_text); [apply keeps_ret|].
  apply keeps_bind; [apply keeps_preprocess_text | intros ?].
  apply keeps_bind; [apply keeps_preprocess_text | intros ?].
  apply keeps_bind; [apply keeps_extract_keywords | intros ?].
  apply keeps_bind; [apply keeps_extract_keywords | intros ?].
  apply keeps_bind; [apply keeps_calculate_match_score | intros ?].
  apply keeps_bind; [apply keeps_find_matched_skills | intros ?].
  apply keeps_bind; [apply keeps_find_missing_skills | intros ?].
  apply keeps_ret.
Qed.

End FrameFacts.

(** C9. Once the matcher is built, none of its operations modifies the
    stopword set: [preprocess_text], [extract_keywords],
    [calculate_match_score], [find_matched_skills], [find_missing_skills] and
    [match] (and [load_file], which [match] calls) all leave [stop_words] as
    it was, whether they return or raise. *)
Theorem stop_words_never_modified
    (ENGLISH_STOP_WORDS : gset string) (text a b p q : string)
    (n : Z) (ka kb : list string) :
  keeps_stop_words (preprocess_text text)
  /\ keeps_stop_words (extract_keywords text n)
  /\ keeps_stop_words (calculate_match_score ENGLISH_STOP_WORDS a b)
  /\ keeps_stop_words (find_matched_skills ka kb)
  /\ keeps_stop_words (find_missing_skills ka kb)
  /\ keeps_stop_words (load_file p)
  /\ keeps_stop_words (match_ ENGLISH_STOP_WORDS p q).
Proof.
  split; [apply keeps_preprocess_text|].
  split; [apply keeps_extract_keywords|].
  split; [apply keeps_calculate_match_score|].
  split; [apply keeps_find_matched_skills|].
  split; [apply keeps_find_missing_skills|].
  split; [apply keeps_load_file | apply keeps_match].
Qed.

(** ** The orchestrator *)

Section OrchestratorFacts.

Lemma load_file_run p st :
  load_file p st =
  match files st p with
  | Ret text => (Ret text, logged m_load_file st)
  | Raise e =>
      if isinstance e FileNotFoundError
      then (Ret "", state_after (print ("Error: File '" ++ p ++ "' not found."))
                      (logged m_load_file st))
      else (Raise e, logged m_load_file st)
  end.
Proof.
  cbv [load_file mbind M_bind enter try_except open_read logged snd files
       state_after print mret M_ret].
  destruct (files st p) as [text|e]; [reflexivity|].
  destruct (isinstance e FileNotFoundError); reflexivity.
Qed.

(** What a read that does not raise leaves: the text, or the empty text
    for a missing file; one more call in the log; the same files. *)
Lemma load_file_text p st :
  found_or_missing (files st p) ->
  exists text st',
    load_file p st = (Ret text, st')
    /\ files st' = files st
    /\ calls st' = (calls st ++ [m_load_file])%list
    /\ (no_text (files st p) -> text = "").
Proof.
  intros Hp. rewrite load_file_run. destruct (files st p) as [text|e] eqn:E.
  - exists text, (logged m_load_file st). repeat split.
    intros [H|H]; congruence.
  - rewrite (Hp e eq_refl). simpl. eexists _, _. repeat split.
Qed.

Lemma is_empty_or_l a b : a = "" -> is_empty a || is_empty b = true.
Proof. intros ->. reflexivity. Qed.

Lemma is_empty_or_r a b : b = "" -> is_empty a || is_empty b = true.
Proof. intros ->. apply orb_true_r. Qed.

(** With a document empty or missing, [match] stops after the two reads. *)
Lemma match_without_text sk rp jp st :
  found_or_missing (files st rp) -> found_or_missing (files st jp) ->
  no_text (files st rp) \/ no_text (files st jp) ->
  result_of (match_ sk rp jp) st = Ret None
  /\ calls (state_after (match_ sk rp jp) st)
     = (calls st ++ [m_match; m_load_file; m_load_file])%list.
Proof.
  intros Hr Hj Hno.
  destruct (load_file_text rp (logged m_match st) Hr)
    as (resume_text & st1 & E1 & F1 & C1 & T1).
  assert (Hj1 : found_or_missing (files st1 jp)) by (rewrite F1; exact Hj).
  destruct (load_file_text jp st1 Hj1) as (job_text & st2 & E2 & F2 & C2 & T2).
  assert (Hempty : is_empty resume_text || is_empty job_text = true).
  { destruct Hno as [H|H].
    - apply is_empty_or_l, T1, H.
    - apply is_empty_or_r, T2. rewrite F1. exact H. }
  unfold result_of, state_after, match_.
  cbv [mbind M_bind enter]. change (logged m_match st) with
    {| self := self st; files := files st; stdout := stdout st;
       calls := calls st ++ [m_match] |} in E1.
  rewrite E1, E2, Hempty. cbv [mret M_ret fst snd].
  split; [reflexivity|]. rewrite C2, C1. simpl.
  rewrite <- !app_assoc. reflexivity.
Qed.

End OrchestratorFacts.

(** C2, as amended. When one of the two files is missing and neither read
    fails for another reason, [match] returns [None] and does not raise, and
    nothing of the pipeline runs: after [match] was entered, the two
    [load_file] calls are all that happened. *)
Theorem match_missing_file_gives_none
    (ENGLISH_STOP_WORDS : gset string) (st : state) (resume_path job_path : string) :
  found_or_missing (files st resume_path) ->
  found_or_missing (files st job_path) ->
  files st resume_path = Raise FileNotFoundError
    \/ files st job_path = Raise FileNotFoundError ->
  result_of (match_ ENGLISH_STOP_WORDS resume_path job_path) st = Ret None
  /\ calls (state_after (match_ ENGLISH_STOP_WORDS resume_path job_path) st)
     = (calls st ++ [m_match; m_load_file; m_load_file])%list.
Proof.
  intros Hr Hj Hmissing. apply match_without_text; [exact Hr | exact Hj |].
  destruct Hmissing as [H|H]; [left | right]; right; exact H.
Qed.

Lemma match_missing_file_gives_none_witness :
  let st := new_matcher ["the"; "and"]
              (fun p => if String.eqb p "job.txt" then Ret "Python and SQL"
                        else Raise FileNotFoundError) in
  found_or_missing (files st "resume.txt")
  /\ found_or_missing (files st "job.txt")
  /\ (files st "resume.txt" = Raise FileNotFoundError
      \/ files st "job.txt" = Raise FileNotFoundError)
  /\ result_of (match_ ∅ "resume.txt" "job.txt") st = Ret None
  /\ calls (state_after (match_ ∅ "resume.txt" "job.txt") st)
     = (calls st ++ [m_match; m_load_file; m_load_file])%list.
Proof.
  intros st.
  assert (Hr : found_or_missing (files st "resume.txt")).
  { intros e He. simpl in He. congruence. }
  assert (Hj : found_or_missing (files st "job.txt")).
  { intros e He. simpl in He. congruence. }
  assert (Hm : files st "resume.txt" = Raise FileNotFoundError
               \/ files st "job.txt" = Raise FileNotFoundError).
  { left. reflexivity. }
  split; [exact Hr|]. split; [exact Hj|]. split; [exact Hm|].
  exact (match_missing_file_gives_none ∅ st "resume.txt" "job.txt" Hr Hj Hm).
Defined.

(** C2, as stated, fails when the other read fails for another reason: the
    resume is missing, the job path names a directory, and [match] raises
    [IsADirectoryError], which [load_file] does not catch. *)
Lemma match_missing_file_may_raise :
  let st := new_matcher ["the"; "and"] missing_and_directory in
  files st "resume.txt" = Raise FileNotFoundError
  /\ result_of (match_ ∅ "resume.txt" "jobs") st = Raise IsADirectoryError
  /\ result_of (match_ ∅ "resume.txt" "jobs") st <> Ret None.
Proof.
  intros st. split; [reflexivity|]. split; [reflexivity|].
  intros H. vm_compute in H. discriminate H.
Qed.

(** C10, as amended. When one of the two files exists and is empty and
    neither read fails for a reason other than a missing file, [match]
    returns [None]: the very value it returns, in any world, for a missing
    file, so that its caller cannot tell the two apart. *)
Theorem match_empty_file_gives_none
    (ENGLISH_STOP_WORDS : gset string) (st : state) (resume_path job_path : string) :
  found_or_missing (files st resume_path) ->
  found_or_missing (files st job_path) ->
  files st resume_path = Ret "" \/ files st job_path = Ret "" ->
  result_of (match_ ENGLISH_STOP_WORDS resume_path job_path) st = Ret None
  /\ (forall st' resume_path' job_path',
        found_or_missing (files st' resume_path') ->
        found_or_missing (files st' job_path') ->
        files st' resume_path' = Raise FileNotFoundError
          \/ files st' job_path' = Raise FileNotFoundError ->
        result_of (match_ ENGLISH_STOP_WORDS resume_path' job_path') st'
        = result_of (match_ ENGLISH_STOP_WORDS resume_path job_path) st).
Proof.
  intros Hr Hj Hempty.
  assert (Hnone : result_of (match_ ENGLISH_STOP_WORDS resume_path job_path) st
                  = Ret None).
  { apply match_without_text; [exact Hr | exact Hj |].
    destruct Hempty as [H|H]; [left | right]; left; exact H. }
  split; [exact Hnone|].
  intros st' rp' jp' Hr' Hj' Hmissing. rewrite Hnone.
  apply match_without_text; [exact Hr' | exact Hj' |].
  destruct Hmissing as [H|H]; [left | right]; right; exact H.
Qed.

Lemma match_empty_file_gives_none_witness :
  let st := new_matcher ["the"; "and"]
              (fun p => if String.eqb p "job.txt" then Ret "Python and SQL"
                        else Ret "") in
  found_or_missing (files st "resume.txt")
  /\ found_or_missing (files st "job.txt")
  /\ (files st "resume.txt" = Ret "" \/ files st "job.txt" = Ret "")
  /\ result_of (match_ ∅ "resume.txt" "job.txt") st = Ret None.
Proof.
  intros st.
  assert (Hr : found_or_missing (files st "resume.txt")).
  { intros e He. simpl in He. congruence. }
  assert (Hj : found_or_missing (files st "job.txt")).
  { intros e He. simpl in He. congruence. }
  assert (He : files st "resume.txt" = Ret "" \/ files st "job.txt" = Ret "").
  { left. reflexivity. }
  split; [exact Hr|]. split; [exact Hj|]. split; [exact He|].
  exact (proj1 (match_empty_file_gives_none ∅ st "resume.txt" "job.txt" Hr Hj He)).
Defined.

(** C10, as stated, fails when the other read fails for another reason: the
    resume is an empty file, the job description is not UTF-8 text, and
    [match] raises [UnicodeDecodeError] instead of returning [None]. *)
Lemma match_empty_file_may_raise :
  let st := new_matcher ["the"; "and"] empty_and_binary in
  files st "resume.txt" = Ret ""
  /\ result_of (match_ ∅ "resume.txt" "job.pdf") st = Raise UnicodeDecodeError
  /\ result_of (match_ ∅ "resume.txt" "job.pdf") st <> Ret None.
Proof.
  intros st. split; [reflexivity|]. split; [reflexivity|].
  intros H. vm_compute in H. discriminate H.
Qed.

(** ** Vectors of real numbers *)

Section VectorFacts.

Import Sklearn.
Local Open Scope R_scope.

Lemma square_nonneg x : 0 <= x * x.
Proof. apply Rle_0_sqr. Qed.

Lemma sum_squares_nonneg v : 0 <= sum_squares v.
Proof.
  induction v as [|x v IH]; simpl; [lra|].
  pose proof (square_nonneg x). lra.
Qed.

Lemma dot_self v : dot v v = sum_squares v.
Proof. induction v as [|x v IH]; simpl; [|rewrite IH]; reflexivity. Qed.

Lemma dot_zero_l u v : Forall (fun x => x = 0) u -> dot u v = 0.
Proof.
  intros H. revert v. induction H as [|x u Hx Hu IH]; intros v; [reflexivity|].
  destruct v as [|y v]; simpl; [reflexivity|]. rewrite IH, Hx. lra.
Qed.

Lemma dot_zero_r u v : Forall (fun x => x = 0) v -> dot u v = 0.
Proof.
  intros H. revert u. induction H as [|y v Hy Hv IH]; intros u.
  - destruct u; reflexivity.
  - destruct u as [|x u]; simpl; [reflexivity|]. rewrite IH, Hy. lra.
Qed.

Lemma dot_nonneg u v :
  Forall (fun x => 0 <= x) u -> Forall (fun x => 0 <= x) v -> 0 <= dot u v.
Proof.
  intros Hu. revert v. induction Hu as [|x u Hx Hu IH]; intros v Hv; [simpl; lra|].
  destruct Hv as [|y v Hy Hv]; simpl; [lra|].
  specialize (IH v Hv). pose proof (Rmult_le_pos x y Hx Hy). lra.
Qed.

(** Twice the product of two vectors is at most the sum of their squares. *)
Lemma dot_le_squares u v : 2 * dot u v <= sum_squares u + sum_squares v.
Proof.
  revert v. induction u as [|x u IH]; intros v.
  - simpl. pose proof (sum_squares_nonneg v). lra.
  - destruct v as [|y v]; simpl.
    + pose proof (sum_squares_nonneg u). pose proof (square_nonneg x). lra.
    + specialize (IH v). pose proof (square_nonneg (x - y)) as Hxy.
      replace ((x - y) * (x - y)) with (x * x + y * y - 2 * (x * y)) in Hxy
        by ring.
      lra.
Qed.

Lemma sum_squares_scaled c v :
  sum_squares (map (fun x => x / c) v) = sum_squares v / (c * c).
Proof.
  destruct (Req_dec_T c 0) as [->|Hc].
  - induction v as [|x v IH]; simpl.
    + unfold Rdiv. rewrite Rmult_0_l. reflexivity.
    + rewrite IH. unfold Rdiv. rewrite Rmult_0_l, Rinv_0. lra.
  - induction v as [|x v IH]; simpl.
    + unfold Rdiv. rewrite Rmult_0_l. reflexivity.
    + rewrite IH. field. exact Hc.
Qed.

Lemma norm_l2_zero v : norm_l2 v = 0 -> sum_squares v = 0.
Proof. intros H. apply sqrt_eq_0; [apply sum_squares_nonneg | exact H]. Qed.

(** A row that is not zero has norm one once normalised. *)
Lemma sum_squares_normalize v :
  0 < sum_squares v -> sum_squares (normalize v) = 1.
Proof.
  intros Hpos. unfold normalize.
  destruct (Req_dec_T (norm_l2 v) 0) as [E|Hne].
  - apply norm_l2_zero in E. lra.
  - rewrite sum_squares_scaled. unfold norm_l2.
    rewrite sqrt_sqrt by lra. field. lra.
Qed.

Lemma sum_squares_normalize_le v : sum_squares (normalize v) <= 1.
Proof.
  pose proof (sum_squares_nonneg v) as H.
  destruct (Rle_lt_or_eq_dec _ _ H) as [Hpos|Hzero].
  - rewrite (sum_squares_normalize v Hpos). lra.
  - unfold normalize. destruct (Req_dec_T (norm_l2 v) 0) as [E|Hne]; [lra|].
    exfalso. apply Hne. unfold norm_l2. rewrite <- Hzero. apply sqrt_0.
Qed.

Lemma normalize_zero v :
  Forall (fun x => x = 0) v -> Forall (fun x => x = 0) (normalize v).
Proof.
  intros H. unfold normalize.
  destruct (Req_dec_T (norm_l2 v) 0) as [|_]; [exact H|].
  generalize (norm_l2 v). intros c.
  induction H as [|x v' Hx Hv IH]; simpl; [constructor|].
  constructor; [|exact IH]. rewrite Hx. unfold Rdiv. apply Rmult_0_l.
Qed.

Lemma normalize_nonneg v :
  Forall (fun x => 0 <= x) v -> Forall (fun x => 0 <= x) (normalize v).
Proof.
  intros H. unfold normalize. destruct (Req_dec_T (norm_l2 v) 0) as [|Hne]; [exact H|].
  pose proof (sqrt_pos (sum_squares v)) as Hs. fold (norm_l2 v) in Hs.
  revert Hne Hs. generalize (norm_l2 v). intros c Hne Hs.
  induction H as [|x v' Hx Hv IH]; simpl; [constructor|].
  constructor; [|exact IH].
  apply Rmult_le_pos; [exact Hx|]. left. apply Rinv_0_lt_compat. lra.
Qed.

Lemma cosine_zero_l x y : Forall (fun a => a = 0) x -> cosine_similarity x y = 0.
Proof. intros H. apply dot_zero_l, normalize_zero, H. Qed.

Lemma cosine_zero_r x y : Forall (fun a => a = 0) y -> cosine_similarity x y = 0.
Proof. intros H. apply dot_zero_r, normalize_zero, H. Qed.

(** The cosine of a row that is not zero with itself is one. *)
Lemma cosine_self x : 0 < sum_squares x -> cosine_similarity x x = 1.
Proof.
  intros H. unfold cosine_similarity.
  rewrite dot_self. apply sum_squares_normalize. exact H.
Qed.

Lemma cosine_bounds x y :
  Forall (fun a => 0 <= a) x -> Forall (fun a => 0 <= a) y ->
  0 <= cosine_similarity x y <= 1.
Proof.
  intros Hx Hy. unfold cosine_similarity. split.
  - apply dot_nonneg; apply normalize_nonneg; assumption.
  - pose proof (dot_le_squares (normalize x) (normalize y)).
    pose proof (sum_squares_normalize_le x).
    pose proof (sum_squares_normalize_le y). lra.
Qed.

Lemma sum_squares_map_pos {A} (f : A -> R) (l : list A) :
  l <> [] -> (forall a, a ∈ l -> 0 < f a) -> 0 < sum_squares (map f l).
Proof.
  destruct l as [|a l]; [congruence|]. intros _ Hf. simpl.
  pose proof (sum_squares_nonneg (map f l)).
  pose proof (Hf a (list_elem_of_here a l)) as Ha.
  pose proof (Rmult_lt_0_compat _ _ Ha Ha). lra.
Qed.

Lemma idf_ge_1 n df : (df <= n)%nat -> 1 <= idf n df.
Proof.
  intros H. unfold idf. apply le_INR in H.
  pose proof (pos_INR df). pose proof (pos_INR n).
  assert (Hq : 1 <= (1 + INR n) / (1 + INR df)).
  { apply Rmult_le_reg_r with (1 + INR df); [lra|].
    unfold Rdiv. rewrite Rmult_assoc, Rinv_l by lra. lra. }
  destruct (Rle_lt_or_eq_dec _ _ Hq) as [Hlt|Heq].
  - pose proof (ln_increasing 1 _ Rlt_0_1 Hlt) as Hln. rewrite ln_1 in Hln. lra.
  - rewrite <- Heq, ln_1. lra.
Qed.

End VectorFacts.

(** ** The similarity scorer *)

Section ScorerFacts.

Import Sklearn.
Local Open Scope R_scope.

Variable sk : gset string.

Lemma analyze_empty : analyze sk "" = [].
Proof. reflexivity. Qed.

Lemma fit_transform_raises n docs e :
  fit_transform sk n docs = Raise e -> e = ValueError.
Proof.
  unfold fit_transform. destruct (vocabulary _); intros H; congruence.
Qed.

Lemma calculate_match_score_run a b st :
  calculate_match_score sk a b st =
  (Ret (similarity sk a b), logged m_calculate_match_score st).
Proof.
  cbv [calculate_match_score mbind M_bind enter try_except lift mret M_ret
       logged snd similarity].
  destruct (fit_transform sk 100 [a; b]) as [m|e] eqn:E; [reflexivity|].
  rewrite (fit_transform_raises _ _ _ E). reflexivity.
Qed.

Lemma document_frequency_le docs t :
  (document_frequency docs t <= length docs)%nat.
Proof.
  unfold document_frequency. induction docs as [|d docs IH]; simpl; [lia|].
  destruct (bool_decide (t ∈ d)); simpl; lia.
Qed.

Lemma weight_nonneg docs d t :
  0 <= INR (count t d) * idf (length docs) (document_frequency docs t).
Proof.
  pose proof (idf_ge_1 _ _ (document_frequency_le docs t)).
  apply Rmult_le_pos; [apply pos_INR | lra].
Qed.

Lemma weight_pos docs d t :
  t ∈ d -> 0 < INR (count t d) * idf (length docs) (document_frequency docs t).
Proof.
  intros Hin. pose proof (idf_ge_1 _ _ (document_frequency_le docs t)).
  apply Rmult_lt_0_compat; [|lra]. apply lt_0_INR.
  apply list_elem_of_In in Hin. unfold count.
  apply (count_occ_In String.string_dec) in Hin. lia.
Qed.

Lemma tfidf_row_empty docs kept :
  Forall (fun x => x = 0) (tfidf_row docs kept []).
Proof.
  unfold tfidf_row. apply normalize_zero.
  induction kept as [|t kept IH]; simpl; constructor; [|exact IH].
  apply Rmult_0_l.
Qed.

Lemma tfidf_row_nonneg docs kept d :
  Forall (fun x => 0 <= x) (tfidf_row docs kept d).
Proof.
  unfold tfidf_row. apply normalize_nonneg.
  induction kept as [|t kept IH]; simpl; constructor; [|exact IH].
  apply weight_nonneg.
Qed.

(** A document all of whose kept terms occur in it gets a row of norm one. *)
Lemma tfidf_row_unit docs kept d :
  kept <> [] -> (forall t, t ∈ kept -> t ∈ d) ->
  sum_squares (tfidf_row docs kept d) = 1.
Proof.
  intros Hne Hin. unfold tfidf_row. apply sum_squares_normalize.
  apply sum_squares_map_pos; [exact Hne|].
  intros t Ht. apply weight_pos, Hin, Ht.
Qed.

Lemma vocabulary_elem docs t : t ∈ vocabulary docs <-> t ∈ concat docs.
Proof.
  unfold vocabulary. rewrite sort_stable_perm. apply elem_of_remove_dups.
Qed.

Lemma limit_features_elem docs n vocab t :
  t ∈ limit_features docs n vocab -> t ∈ vocab.
Proof.
  unfold limit_features. destruct (length vocab <=? n)%nat; [tauto|].
  rewrite !list_elem_of_In, filter_In. tauto.
Qed.

Lemma limit_features_nonempty docs n vocab :
  (0 < n)%nat -> vocab <> [] -> limit_features docs n vocab <> [].
Proof.
  intros Hn Hne. unfold limit_features.
  destruct (length vocab <=? n)%nat; [exact Hne|].
  set (sorted := Sorting.sort_stable _ vocab).
  assert (Hperm : Permutation sorted vocab) by apply sort_stable_perm.
  destruct sorted as [|h sorted'].
  - apply Permutation_nil in Hperm. congruence.
  - destruct n as [|n']; [lia|]. simpl firstn.
    assert (Hh : h ∈ vocab).
    { rewrite <- Hperm. apply list_elem_of_here. }
    intros E.
    assert (Hf : In h (List.filter
              (fun t => bool_decide (t ∈ h :: firstn n' sorted')) vocab)).
    { apply filter_In. split; [apply list_elem_of_In; exact Hh|].
      apply bool_decide_eq_true. apply list_elem_of_here. }
    rewrite E in Hf. exact Hf.
Qed.

(** In exact arithmetic the similarity lies between 0 and 1. *)
Lemma similarity_bounds a b : 0 <= similarity sk a b <= 1.
Proof.
  unfold similarity, fit_transform. destruct (vocabulary _); [lra|].
  cbn [map nth]. apply cosine_bounds; apply tfidf_row_nonneg.
Qed.

Lemma similarity_empty_l b : similarity sk "" b = 0.
Proof.
  unfold similarity, fit_transform. cbn [map]. rewrite analyze_empty.
  destruct (vocabulary _); [reflexivity|].
  cbn [map nth]. apply cosine_zero_l, tfidf_row_empty.
Qed.

Lemma similarity_empty_r a : similarity sk a "" = 0.
Proof.
  unfold similarity, fit_transform. cbn [map]. rewrite analyze_empty.
  destruct (vocabulary _); [reflexivity|].
  cbn [map nth]. apply cosine_zero_r, tfidf_row_empty.
Qed.

Lemma similarity_no_vocabulary a b :
  vocabulary [analyze sk a; analyze sk b] = [] -> similarity sk a b = 0.
Proof.
  intros H. unfold similarity, fit_transform. cbn [map]. rewrite H. reflexivity.
Qed.

Lemma similarity_self X : analyze sk X <> [] -> similarity sk X X = 1.
Proof.
  intros Hne. unfold similarity, fit_transform. cbn [map].
  set (d := analyze sk X) in *.
  assert (Hin : forall t, t ∈ vocabulary [d; d] -> t ∈ d).
  { intros t Ht. apply vocabulary_elem in Ht. simpl in Ht.
    rewrite app_nil_r in Ht. apply elem_of_app in Ht. tauto. }
  assert (Hvoc : vocabulary [d; d] <> []).
  { destruct d as [|t d']; [congruence|]. intros E.
    assert (Ht : t ∈ vocabulary [t :: d'; t :: d']).
    { apply vocabulary_elem. simpl. apply list_elem_of_here. }
    rewrite E in Ht. apply elem_of_nil in Ht. exact Ht. }
  destruct (vocabulary [d; d]) as [|v vocab] eqn:E; [congruence|].
  cbn [map nth]. apply cosine_self.
  rewrite tfidf_row_unit; [lra | |].
  - apply limit_features_nonempty; [lia | congruence].
  - intros t Ht. apply Hin. eapply limit_features_elem. exact Ht.
Qed.

End ScorerFacts.

(** C1. When either document handed to the scorer is empty, or the two
    documents leave the vectorizer no term to build a vocabulary from,
    [calculate_match_score] returns exactly 0 and does not raise. *)
Theorem degenerate_input_scores_zero
    (ENGLISH_STOP_WORDS : gset string) (st : state)
    (resume_text job_text : string) :
  resume_text = "" \/ job_text = ""
    \/ Sklearn.vocabulary [Sklearn.analyze ENGLISH_STOP_WORDS resume_text;
                           Sklearn.analyze ENGLISH_STOP_WORDS job_text] = [] ->
  result_of (calculate_match_score ENGLISH_STOP_WORDS resume_text job_text) st
  = Ret 0%R.
Proof.
  intros H. unfold result_of. rewrite calculate_match_score_run. simpl. f_equal.
  destruct H as [-> | [-> | H]].
  - apply similarity_empty_l.
  - apply similarity_empty_r.
  - apply similarity_no_vocabulary. exact H.
Qed.

Lemma degenerate_input_scores_zero_witness :
  ("" = "" \/ "python developer" = ""
     \/ Sklearn.vocabulary [Sklearn.analyze {["the"; "and"]} "";
                            Sklearn.analyze {["the"; "and"]} "python developer"] = [])
  /\ result_of (calculate_match_score {["the"; "and"]} "" "python developer")
       (new_matcher ["the"; "and"] (fun _ => Raise FileNotFoundError))
     = Ret 0%R.
Proof.
  split; [left; reflexivity|].
  apply (degenerate_input_scores_zero {["the"; "and"]} _ "" "python developer").
  left. reflexivity.
Defined.

(** C6, as amended. For every text in which the vectorizer finds a term
    (a run of two or more word characters that is not one of its stopwords),
    [calculate_match_score(X, X)] is 1 in exact arithmetic, and so within any
    tolerance of 1. *)
Theorem identical_documents_score_one
    (ENGLISH_STOP_WORDS : gset string) (st : state) (X : string) :
  Sklearn.analyze ENGLISH_STOP_WORDS X <> [] ->
  result_of (calculate_match_score ENGLISH_STOP_WORDS X X) st = Ret 1%R
  /\ forall tolerance, (0 <= tolerance)%R -> close_to_one tolerance 1.
Proof.
  intros H. split.
  - unfold result_of. rewrite calculate_match_score_run. simpl. f_equal.
    apply similarity_self. exact H.
  - intros tolerance Htol. unfold close_to_one.
    rewrite Rminus_diag, Rabs_R0. exact Htol.
Qed.

Lemma identical_documents_score_one_witness :
  Sklearn.analyze {["the"; "and"]} "python developer sql" <> []
  /\ result_of (calculate_match_score {["the"; "and"]}
                  "python developer sql" "python developer sql")
       (new_matcher ["the"; "and"] (fun _ => Raise FileNotFoundError))
     = Ret 1%R.
Proof.
  assert (H : Sklearn.analyze {["the"; "and"]} "python developer sql" <> []).
  { vm_compute. discriminate. }
  split; [exact H|].
  exact (proj1 (identical_documents_score_one {["the"; "and"]} _
                  "python developer sql" H)).
Defined.

(** C6, as stated, fails for a normalized text without word characters:
    three section signs pass the normalizer unchanged, the vectorizer finds
    no token in them and raises, and the score of the text with itself is
    0, at distance 1 from 1. *)
Lemma identical_documents_may_score_zero :
  let st := new_matcher ["the"; "and"] (fun _ => Raise FileNotFoundError) in
  result_of (preprocess_text section_signs) st = Ret section_signs
  /\ section_signs <> ""
  /\ result_of (calculate_match_score {["the"; "and"]} section_signs section_signs) st
     = Ret 0%R
  /\ forall tolerance, (tolerance < 1)%R -> ~ close_to_one tolerance 0.
Proof.
  intros st. split; [reflexivity|]. split; [discriminate|]. split.
  - unfold result_of. rewrite calculate_match_score_run.
    rewrite similarity_no_vocabulary by reflexivity. reflexivity.
  - intros tolerance Htol. unfold close_to_one.
    rewrite Rminus_0_l, Rabs_Ropp, Rabs_R1. lra.
Qed.

(** * Further properties of the pipeline *)

(** ** More on the normalizer *)

Section NormalizerOutput.

Lemma lower_append a b : lower (a ++ b) = lower a ++ lower b.
Proof.
  induction a as [|c a IH]; [reflexivity|].
  rewrite append_cons. simpl. rewrite IH. reflexivity.
Qed.

Lemma remove_chars_append drop a b :
  SpecNormalizer.remove_chars drop (a ++ b) =
  SpecNormalizer.remove_chars drop a ++ SpecNormalizer.remove_chars drop b.
Proof.
  induction a as [|c a IH]; [reflexivity|].
  rewrite append_cons. simpl. rewrite IH. destruct (drop c); reflexivity.
Qed.

Lemma space_untouched c :
  isspace c = true ->
  lower_char c = c /\ SpecNormalizer.is_ascii_punctuation c = false.
Proof.
  destruct c as [[] [] [] [] [] [] [] []]; intros H;
    first [discriminate H | split; reflexivity].
Qed.

Lemma lower_idem s : lower (lower s) = lower s.
Proof.
  induction s as [|c s IH]; simpl; [reflexivity|].
  rewrite lower_char_idem, IH. reflexivity.
Qed.

(** A white space character ends the word being read: the words of
    [a c b] are those of [a] followed by those of [b]. *)
Lemma split_loop_separator cur a c b :
  isspace c = true ->
  split_loop cur (a ++ String c b) = (split_loop cur a ++ split b)%list.
Proof.
  intros Hc. revert cur. induction a as [|x a IH]; intros cur.
  - rewrite append_empty_l. simpl. rewrite Hc. destruct cur; reflexivity.
  - rewrite append_cons. simpl. destruct (isspace x).
    + destruct cur; rewrite IH; reflexivity.
    + apply IH.
Qed.

Lemma normalize_words S text :
  split (SpecNormalizer.normalize S text) =
  List.filter (fun t => negb (SpecNormalizer.dropped S t))
    (split (SpecNormalizer.remove_chars SpecNormalizer.is_ascii_punctuation
              (lower text))).
Proof.
  destruct (normalize_tokens_clean S text) as [Hwords _].
  apply (split_join _ Hwords).
Qed.

Lemma not_dropped S w :
  negb (SpecNormalizer.dropped S w) = true ->
  (w ∉ S) /\ (2 < len w)%Z.
Proof.
  unfold SpecNormalizer.dropped, len. rewrite negb_orb.
  intros [Hs Hl]%andb_true_iff.
  apply negb_true_iff, bool_decide_eq_false in Hs.
  apply negb_true_iff, Nat.leb_gt in Hl. split; [exact Hs | lia].
Qed.

End NormalizerOutput.

(** X1. The words of the text [preprocess_text] returns are the tokens of
    the lower-cased, punctuation-free input that pass the filter, in their
    order: none is a stopword, each has more than two characters. *)
Theorem preprocess_text_words (st : state) (text : string) :
  exists y,
    result_of (preprocess_text text) st = Ret y
    /\ split y =
       List.filter
         (fun word => negb (bool_decide (word ∈ stop_words (self st)))
                      && (2 <? len word)%Z)
         (split (translate (lower text) (maketrans "" "" punctuation)))
    /\ Forall (fun word => (word ∉ stop_words (self st)) /\ (2 < len word)%Z)
         (split y).
Proof.
  eexists. unfold result_of. rewrite preprocess_text_run. simpl.
  split; [reflexivity|]. rewrite normalize_words, translate_punctuation. split.
  - apply filter_ext. intros w. symmetry. apply kept_iff_not_dropped.
  - eapply Forall_impl; [apply filter_kept|].
    intros w Hw. apply not_dropped. exact Hw.
Qed.

(** X2. The text [preprocess_text] returns is in normal form: lower-casing
    it or removing the punctuation from it changes nothing, and its words
    are separated by single spaces, with no white space before the first or
    after the last. *)
Theorem preprocess_text_output_form (st : state) (text : string) :
  exists y,
    result_of (preprocess_text text) st = Ret y
    /\ lower y = y
    /\ translate y (maketrans "" "" punctuation) = y
    /\ join " " (split y) = y.
Proof.
  eexists. unfold result_of. rewrite preprocess_text_run. simpl.
  split; [reflexivity|].
  destruct (normalize_tokens_clean (stop_words (self st)) text) as [Hwords Hclean].
  assert (Hy : chars_ok clean
                 (SpecNormalizer.normalize (stop_words (self st)) text)).
  { apply (chars_ok_join clean); [reflexivity | exact Hclean]. }
  split; [apply lower_clean; exact Hy|]. split.
  - rewrite translate_punctuation. apply remove_chars_clean. exact Hy.
  - rewrite normalize_words. reflexivity.
Qed.

(** X3. Normalizing two texts put together with a white space character
    between them gives the words of the first followed by the words of the
    second: a document can be normalized line by line. *)
Theorem preprocess_text_concatenation
    (st : state) (a b : string) (c : ascii) :
  isspace c = true ->
  exists ya yb y,
    result_of (preprocess_text a) st = Ret ya
    /\ result_of (preprocess_text b) st = Ret yb
    /\ result_of (preprocess_text (a ++ String c b)) st = Ret y
    /\ split y = (split ya ++ split yb)%list
    /\ y = join " " (split ya ++ split yb).
Proof.
  intros Hc. destruct (space_untouched c Hc) as [Hlow Hpun].
  do 3 eexists. unfold result_of. rewrite !preprocess_text_run. simpl.
  do 3 (split; [reflexivity|]).
  assert (E : split (SpecNormalizer.normalize (stop_words (self st))
                       (a ++ String c b)) =
              (split (SpecNormalizer.normalize (stop_words (self st)) a) ++
               split (SpecNormalizer.normalize (stop_words (self st)) b))%list).
  { rewrite !normalize_words, lower_append, remove_chars_append. simpl.
    rewrite Hlow, Hpun. unfold split at 1.
    rewrite (split_loop_separator _ _ _ _ Hc). apply List.filter_app. }
  split; [exact E|]. rewrite <- E.
  rewrite normalize_words. reflexivity.
Qed.

Lemma preprocess_text_concatenation_witness :
  isspace "010" = true
  /\ exists ya yb y,
       result_of (preprocess_text "Python, SQL") (new_matcher ["the"; "and"] (fun _ => Raise FileNotFoundError)) = Ret ya
       /\ result_of (preprocess_text "and the AWS cloud") (new_matcher ["the"; "and"] (fun _ => Raise FileNotFoundError)) = Ret yb
       /\ result_of (preprocess_text ("Python, SQL" ++ String "010" "and the AWS cloud"))
            (new_matcher ["the"; "and"] (fun _ => Raise FileNotFoundError)) = Ret y
       /\ split y = (split ya ++ split yb)%list
       /\ y = join " " (split ya ++ split yb).
Proof.
  split; [reflexivity|].
  apply (preprocess_text_concatenation _ "Python, SQL" "and the AWS cloud" "010").
  reflexivity.
Defined.

(** X4. [preprocess_text] does not see letter case: a text and the text in
    lower case give the same result. *)
Theorem preprocess_text_ignores_case (st : state) (text : string) :
  result_of (preprocess_text (lower text)) st
  = result_of (preprocess_text text) st.
Proof.
  unfold result_of. rewrite !preprocess_text_run. simpl.
  unfold SpecNormalizer.normalize. rewrite lower_idem. reflexivity.
Qed.

(** ** More on the keyword extractor *)

Section ExtractorOrder.

Lemma dict_get_set d k v k' default :
  Dict.get (Dict.set d k v) k' default =
  if String.eqb k k' then v else Dict.get d k' default.
Proof.
  induction d as [|[k0 v0] d IH]; simpl; [reflexivity|].
  destruct (String.eqb_spec k0 k) as [->|Hne]; simpl.
  - destruct (String.eqb k k'); reflexivity.
  - rewrite IH. destruct (String.eqb_spec k0 k') as [->|Hne'].
    + destruct (String.eqb_spec k k'); [congruence | reflexivity].
    + reflexivity.
Qed.

Lemma dict_get_entry d k v default :
  NoDup (map fst d) -> (k, v) ∈ d -> Dict.get d k default = v.
Proof.
  induction d as [|[k0 v0] d IH]; simpl; intros Hnd Hin.
  - apply elem_of_nil in Hin. contradiction.
  - apply NoDup_cons in Hnd as [Hnin Hnd].
    apply elem_of_cons in Hin as [Heq|Hin].
    + inversion Heq; subst. rewrite String.eqb_refl. reflexivity.
    + destruct (String.eqb_spec k0 k) as [->|Hne]; [|apply IH; assumption].
      exfalso. apply Hnin.
      change k with (fst (k, v)). apply list_elem_of_fmap_2. exact Hin.
Qed.

Lemma occurrences_cons w x words :
  occurrences w (x :: words) =
  ((if String.eqb x w then 1 else 0) + occurrences w words)%Z.
Proof.
  unfold occurrences. simpl.
  destruct (String.string_dec x w) as [->|Hne].
  - rewrite String.eqb_refl. lia.
  - apply String.eqb_neq in Hne. rewrite Hne. lia.
Qed.

Lemma occurrences_pos w words : w ∈ words -> (1 <= occurrences w words)%Z.
Proof.
  intros Hin. apply list_elem_of_In in Hin. unfold occurrences.
  apply (count_occ_In String.string_dec) in Hin. lia.
Qed.

Lemma count_words_from_get words acc w :
  Dict.get (fold_left
    (fun word_freq word =>
       Dict.set word_freq word (Dict.get word_freq word 0 + 1)%Z) words acc) w 0
  = (Dict.get acc w 0 + occurrences w words)%Z.
Proof.
  revert acc. induction words as [|x words IH]; intros acc; simpl.
  - unfold occurrences. simpl. lia.
  - rewrite IH, dict_get_set, occurrences_cons.
    destruct (String.eqb_spec x w) as [->|Hne]; lia.
Qed.

Lemma count_words_from_keys words acc w :
  w ∈ map fst (fold_left
    (fun word_freq word =>
       Dict.set word_freq word (Dict.get word_freq word 0 + 1)%Z) words acc)
  <-> w ∈ map fst acc \/ w ∈ words.
Proof.
  revert acc. induction words as [|x words IH]; intros acc; simpl.
  - rewrite elem_of_nil. tauto.
  - rewrite IH, dict_set_keys_in, elem_of_cons. intuition congruence.
Qed.

(** The dictionary holds each word of the text with its number of
    occurrences, and nothing else. *)
Lemma count_words_keys words w : w ∈ map fst (count_words words) <-> w ∈ words.
Proof.
  unfold count_words. rewrite count_words_from_keys. simpl.
  rewrite elem_of_nil. tauto.
Qed.

Lemma count_words_entry words w n :
  (w, n) ∈ count_words words -> n = occurrences w words /\ w ∈ words.
Proof.
  intros Hin. split.
  - rewrite <- (dict_get_entry _ _ _ 0%Z (count_words_nodup words) Hin).
    unfold count_words. rewrite count_words_from_get. reflexivity.
  - apply count_words_keys. change w with (fst (w, n)).
    apply list_elem_of_fmap_2. exact Hin.
Qed.

Lemma dict_set_length d k v : (length (Dict.set d k v) <= S (length d))%nat.
Proof.
  induction d as [|[k0 v0] d IH]; simpl; [lia|].
  destruct (String.eqb k0 k); simpl; lia.
Qed.

Lemma count_words_from_length words acc :
  (length (fold_left
    (fun word_freq word =>
       Dict.set word_freq word (Dict.get word_freq word 0 + 1)%Z) words acc)
   <= length acc + length words)%nat.
Proof.
  revert acc. induction words as [|x words IH]; intros acc; simpl; [lia|].
  etransitivity; [apply IH|].
  pose proof (dict_set_length acc x (Dict.get acc x 0 + 1)%Z). lia.
Qed.

Lemma count_words_length words :
  (length (count_words words) <= length words)%nat.
Proof. apply (count_words_from_length words []). Qed.

Lemma insert_by_count_sorted x l :
  StronglySorted count_not_below l ->
  StronglySorted count_not_below
    (Sorting.insert_stable (fun y x => (snd x <? snd y)%Z) x l).
Proof.
  induction 1 as [|y l Hs IH Hy]; simpl.
  - constructor; constructor.
  - destruct (Z.ltb_spec (snd x) (snd y)) as [Hlt|Hge].
    + constructor; [exact IH|].
      rewrite (insert_stable_perm _ x l).
      constructor; [unfold count_not_below; lia | exact Hy].
    + constructor; [constructor; assumption|].
      constructor; [exact Hge|].
      eapply Forall_impl; [exact Hy|].
      intros z Hz. unfold count_not_below in *. lia.
Qed.

Lemma sort_by_count_sorted l :
  StronglySorted count_not_below
    (Sorting.sort_stable (fun y x => (snd x <? snd y)%Z) l).
Proof.
  induction l as [|x l IH]; simpl; [constructor|].
  apply insert_by_count_sorted. exact IH.
Qed.

Lemma StronglySorted_app_inv {A} (R : A -> A -> Prop) l1 l2 :
  StronglySorted R (l1 ++ l2) ->
  StronglySorted R l1 /\ forall a b, a ∈ l1 -> b ∈ l2 -> R a b.
Proof.
  induction l1 as [|x l1 IH]; simpl; intros H.
  - split; [constructor|]. intros a b Ha. apply elem_of_nil in Ha. contradiction.
  - apply StronglySorted_inv in H as [Hs Hx].
    destruct (IH Hs) as [Hs1 Hcross]. split.
    + constructor; [exact Hs1|].
      apply Forall_forall. intros z Hz. rewrite Forall_forall in Hx.
      apply Hx. apply elem_of_app. left. exact Hz.
    + intros a b Ha Hb. apply elem_of_cons in Ha as [->|Ha].
      * rewrite Forall_forall in Hx. apply Hx. apply elem_of_app. right. exact Hb.
      * apply Hcross; assumption.
Qed.

Lemma slice_to_prefix {A} (l : list A) n :
  exists rest, l = (slice_to l n ++ rest)%list.
Proof.
  unfold slice_to. destruct (0 <=? n)%Z; eexists; symmetry; apply firstn_skipn.
Qed.

Lemma StronglySorted_map {A B} (f : A -> B) (R : A -> A -> Prop)
    (Q : B -> B -> Prop) l :
  (forall a b, a ∈ l -> b ∈ l -> R a b -> Q (f a) (f b)) ->
  StronglySorted R l -> StronglySorted Q (map f l).
Proof.
  intros Hf Hs. induction Hs as [|x l Hs IH Hx]; simpl; [constructor|].
  constructor.
  - apply IH. intros a b Ha Hb. apply Hf; apply elem_of_cons; right; assumption.
  - apply Forall_forall. intros y Hy.
    apply list_elem_of_fmap in Hy as (z & -> & Hz).
    rewrite Forall_forall in Hx. apply Hf.
    + apply list_elem_of_here.
    + apply elem_of_cons. right. exact Hz.
    + apply Hx. exact Hz.
Qed.

(** The ranking [extract_keywords] cuts its result from. *)
Lemma ranking_entries text :
  let ranking :=
    Sorting.sort_stable (fun y x => (snd x <? snd y)%Z) (count_words (split text)) in
  (forall w n, (w, n) ∈ ranking -> n = occurrences w (split text) /\ w ∈ split text)
  /\ (forall w, w ∈ split text -> w ∈ map fst ranking)
  /\ NoDup (map fst ranking)
  /\ StronglySorted (at_least_as_frequent (split text)) (map fst ranking).
Proof.
  intros ranking.
  assert (Hperm : Permutation ranking (count_words (split text)))
    by apply sort_stable_perm.
  assert (Hentry : forall w n, (w, n) ∈ ranking ->
            n = occurrences w (split text) /\ w ∈ split text).
  { intros w n Hin. rewrite Hperm in Hin. apply count_words_entry. exact Hin. }
  split; [exact Hentry|]. split; [|split].
  - intros w Hw. rewrite (Permutation_map fst Hperm).
    apply count_words_keys. exact Hw.
  - rewrite (Permutation_map fst Hperm). apply count_words_nodup.
  - apply (StronglySorted_map fst count_not_below);
      [|apply sort_by_count_sorted].
    intros [a na] [b nb] Ha Hb Hle. unfold count_not_below in Hle. simpl in *.
    destruct (Hentry a na Ha) as [-> _]. destruct (Hentry b nb Hb) as [-> _].
    exact Hle.
Qed.

End ExtractorOrder.

Section ExtractorRanking.

Lemma keywords_prefix text limit :
  exists rest,
    map fst (Sorting.sort_stable (fun y x => (snd x <? snd y)%Z)
               (count_words (split text))) =
    (map fst (slice_to
       (Sorting.sort_stable (fun y x => (snd x <? snd y)%Z)
          (count_words (split text))) limit) ++ rest)%list.
Proof.
  destruct (slice_to_prefix
              (Sorting.sort_stable (fun y x => (snd x <? snd y)%Z)
                 (count_words (split text))) limit) as [rest Hrest].
  exists (map fst rest). rewrite <- map_app, <- Hrest. reflexivity.
Qed.

Lemma ranking_key_in_text text w :
  w ∈ map fst (Sorting.sort_stable (fun y x => (snd x <? snd y)%Z)
                 (count_words (split text))) ->
  w ∈ split text.
Proof.
  intros Hw. apply list_elem_of_fmap in Hw as ([w' n] & -> & Hin).
  destruct (ranking_entries text) as (Hentry & _). apply (Hentry _ _ Hin).
Qed.

Lemma slice_to_all {A} (l : list A) n :
  (Z.of_nat (length l) <= n)%Z -> slice_to l n = l.
Proof.
  intros Hn. unfold slice_to.
  destruct (Z.leb_spec 0 n) as [H0|H0]; [|lia].
  apply firstn_all2. lia.
Qed.

Lemma keywords_in_text text limit w :
  w ∈ map fst (slice_to
         (Sorting.sort_stable (fun y x => (snd x <? snd y)%Z)
            (count_words (split text))) limit) ->
  w ∈ split text.
Proof.
  intros Hw. apply ranking_key_in_text.
  destruct (keywords_prefix text limit) as [rest ->].
  apply elem_of_app. left. exact Hw.
Qed.

Lemma normalize_words_kept S text :
  Forall (fun w => (w ∉ S) /\ (2 < len w)%Z)
    (split (SpecNormalizer.normalize S text)).
Proof.
  rewrite normalize_words. eapply Forall_impl; [apply filter_kept|].
  intros w Hw. apply not_dropped. exact Hw.
Qed.

End ExtractorRanking.

(** X5. [extract_keywords] returns words of the text only; and when the
    limit is at least the number of words of the text, every word of the
    text is among the keywords. *)
Theorem extract_keywords_from_text (st : state) (text : string) (limit : Z) :
  exists keywords,
    result_of (extract_keywords text limit) st = Ret keywords
    /\ (forall w, w ∈ keywords -> w ∈ split text)
    /\ ((Z.of_nat (length (split text)) <= limit)%Z ->
        forall w, w ∈ split text -> w ∈ keywords).
Proof.
  eexists. unfold result_of. rewrite extract_keywords_run. simpl.
  split; [reflexivity|]. split.
  - intros w Hw. apply (keywords_in_text text limit). exact Hw.
  - intros Hlimit w Hw. rewrite slice_to_all.
    + destruct (ranking_entries text) as (_ & Hall & _). apply Hall. exact Hw.
    + rewrite (Permutation_length (sort_stable_perm _ _)).
      pose proof (count_words_length (split text)). lia.
Qed.

(** X6. The keywords come in order of decreasing frequency: each keyword
    occurs in the text at least as often as every keyword after it, and at
    least once. *)
Theorem extract_keywords_descending (st : state) (text : string) (limit : Z) :
  exists keywords,
    result_of (extract_keywords text limit) st = Ret keywords
    /\ StronglySorted (at_least_as_frequent (split text)) keywords
    /\ Forall (fun w => (1 <= occurrences w (split text))%Z) keywords.
Proof.
  eexists. unfold result_of. rewrite extract_keywords_run. simpl.
  split; [reflexivity|].
  destruct (ranking_entries text) as (_ & _ & _ & Hsorted).
  destruct (keywords_prefix text limit) as [rest Hrest].
  rewrite Hrest in Hsorted. apply StronglySorted_app_inv in Hsorted as [Hs _].
  split; [exact Hs|]. apply Forall_forall. intros w Hw.
  apply occurrences_pos, ranking_key_in_text. rewrite Hrest.
  apply elem_of_app. left. exact Hw.
Qed.

(** X7. The keywords are the most frequent words: a word of the text that
    is left out does not occur more often than any keyword that is
    returned. *)
Theorem extract_keywords_most_frequent
    (st : state) (text : string) (limit : Z) :
  exists keywords,
    result_of (extract_keywords text limit) st = Ret keywords
    /\ forall kept left_out,
         kept ∈ keywords -> left_out ∈ split text -> left_out ∉ keywords ->
         (occurrences left_out (split text) <= occurrences kept (split text))%Z.
Proof.
  eexists. unfold result_of. rewrite extract_keywords_run. simpl.
  split; [reflexivity|]. intros kept left_out Hkept Htext Hout.
  destruct (ranking_entries text) as (_ & Hall & _ & Hsorted).
  destruct (keywords_prefix text limit) as [rest Hrest].
  rewrite Hrest in Hsorted. apply StronglySorted_app_inv in Hsorted as [_ Hcross].
  apply (Hcross kept left_out Hkept).
  specialize (Hall left_out Htext). rewrite Hrest in Hall.
  apply elem_of_app in Hall as [Hin|Hin]; [contradiction | exact Hin].
Qed.

(** X9. In the pipeline of [match], where the keywords are extracted from
    normalized text, no keyword is a stopword of the matcher and every
    keyword has more than two characters. *)
Theorem keywords_of_normalized_text
    (st : state) (text : string) (limit : Z) :
  exists normalized keywords,
    result_of (preprocess_text text) st = Ret normalized
    /\ result_of (extract_keywords normalized limit)
         (state_after (preprocess_text text) st) = Ret keywords
    /\ Forall (fun w => (w ∉ stop_words (self st)) /\ (2 < len w)%Z) keywords.
Proof.
  do 2 eexists. unfold result_of, state_after.
  rewrite preprocess_text_run. cbn [fst snd].
  split; [reflexivity|]. rewrite extract_keywords_run. cbn [fst snd].
  split; [reflexivity|].
  apply Forall_forall. intros w Hw.
  pose proof (normalize_words_kept (stop_words (self st)) text) as Hwords.
  rewrite Forall_forall in Hwords.
  apply Hwords. apply (keywords_in_text _ limit). exact Hw.
Qed.

Section ExtractorStability.

(** Inserting before the entries of smaller count does not change the
    order among the entries of one count. *)
Lemma insert_stable_filter n x l :
  List.filter (fun e : string * Z => (snd e =? n)%Z)
    (Sorting.insert_stable (fun y x => (snd x <? snd y)%Z) x l) =
  List.filter (fun e : string * Z => (snd e =? n)%Z) (x :: l).
Proof.
  induction l as [|y l IH]; [reflexivity|].
  cbn [Sorting.insert_stable].
  destruct (Z.ltb_spec (snd x) (snd y)) as [Hlt|Hge]; [|reflexivity].
  cbn [List.filter] in *. rewrite IH.
  destruct (Z.eqb_spec (snd y) n) as [Hy|Hy];
    destruct (Z.eqb_spec (snd x) n) as [Hx|Hx]; try reflexivity.
  lia.
Qed.

Lemma sort_stable_filter n l :
  List.filter (fun e : string * Z => (snd e =? n)%Z)
    (Sorting.sort_stable (fun y x => (snd x <? snd y)%Z) l) =
  List.filter (fun e : string * Z => (snd e =? n)%Z) l.
Proof.
  induction l as [|x l IH]; [reflexivity|].
  cbn [Sorting.sort_stable]. rewrite insert_stable_filter.
  cbn [List.filter]. rewrite IH. reflexivity.
Qed.

Lemma dict_set_keys d k v :
  map fst (Dict.set d k v) =
  if existsb (String.eqb k) (map fst d) then map fst d
  else (map fst d ++ [k])%list.
Proof.
  induction d as [|[k0 v0] d IH]; simpl; [reflexivity|].
  rewrite (String.eqb_sym k k0).
  destruct (String.eqb k0 k); simpl; [reflexivity|].
  rewrite IH. destruct (existsb (String.eqb k) (map fst d)); reflexivity.
Qed.

Lemma filter_filter_and {A} (f g : A -> bool) l :
  List.filter f (List.filter g l) = List.filter (fun x => g x && f x) l.
Proof.
  induction l as [|x l IH]; simpl; [reflexivity|].
  destruct (g x); simpl; [destruct (f x)|]; rewrite IH; reflexivity.
Qed.

Lemma existsb_app_singleton keys x w :
  existsb (String.eqb w) (keys ++ [x]) =
  existsb (String.eqb w) keys || String.eqb w x.
Proof. rewrite existsb_app. simpl. rewrite orb_false_r. reflexivity. Qed.

Lemma count_words_from_key_order words acc :
  map fst (fold_left
    (fun word_freq word =>
       Dict.set word_freq word (Dict.get word_freq word 0 + 1)%Z) words acc) =
  (map fst acc ++
   List.filter (fun w => negb (existsb (String.eqb w) (map fst acc)))
     (first_seen words))%list.
Proof.
  revert acc. induction words as [|x words IH]; intros acc.
  - simpl. rewrite app_nil_r. reflexivity.
  - cbn [fold_left first_seen List.filter]. rewrite IH, dict_set_keys.
    rewrite filter_filter_and.
    destruct (existsb (String.eqb x) (map fst acc)) eqn:E; cbn [negb].
    + f_equal. apply filter_ext_in. intros w _.
      destruct (String.eqb_spec x w) as [->|Hne]; cbn [negb andb].
      * rewrite E. reflexivity.
      * reflexivity.
    + rewrite <- app_assoc. cbn [app]. do 2 f_equal.
      apply filter_ext. intros w. rewrite existsb_app_singleton, negb_orb.
      rewrite (String.eqb_sym w x). apply andb_comm.
Qed.

(** The dictionary lists the words in the order of their first occurrence. *)
Lemma count_words_key_order words :
  map fst (count_words words) = first_seen words.
Proof.
  unfold count_words. rewrite count_words_from_key_order. simpl.
  apply filter_all_true. apply Forall_forall. reflexivity.
Qed.

Lemma filter_map_fst (f : string -> bool) (l : list (string * Z)) :
  List.filter f (map fst l) = map fst (List.filter (fun e => f (fst e)) l).
Proof.
  induction l as [|e l IH]; simpl; [reflexivity|].
  destruct (f (fst e)); simpl; rewrite IH; reflexivity.
Qed.

(** Among the words of one frequency, the ranking keeps the order of first
    occurrence. *)
Lemma ranking_stable text n :
  List.filter (fun w => (occurrences w (split text) =? n)%Z)
    (map fst (Sorting.sort_stable (fun y x => (snd x <? snd y)%Z)
                (count_words (split text)))) =
  List.filter (fun w => (occurrences w (split text) =? n)%Z)
    (first_seen (split text)).
Proof.
  rewrite <- count_words_key_order, !filter_map_fst. f_equal.
  transitivity (List.filter (fun e : string * Z => (snd e =? n)%Z)
                  (Sorting.sort_stable (fun y x => (snd x <? snd y)%Z)
                     (count_words (split text)))).
  - apply filter_ext_in. intros [w k] Hin. simpl.
    destruct (ranking_entries text) as (Hentry & _).
    apply list_elem_of_In in Hin. destruct (Hentry w k Hin) as [-> _].
    reflexivity.
  - rewrite sort_stable_filter. apply filter_ext_in. intros [w k] Hin. simpl.
    apply list_elem_of_In in Hin.
    destruct (count_words_entry _ _ _ Hin) as [-> _]. reflexivity.
Qed.

Lemma first_seen_sub words w : w ∈ first_seen words -> w ∈ words.
Proof.
  induction words as [|x words IH]; simpl; [tauto|].
  rewrite !elem_of_cons, list_elem_of_In, filter_In, <- list_elem_of_In. tauto.
Qed.

Lemma first_seen_nodup words : NoDup words -> first_seen words = words.
Proof.
  induction 1 as [|x words Hx Hnd IH]; simpl; [reflexivity|].
  rewrite IH. f_equal. apply filter_all_true. apply Forall_forall.
  intros w Hw. apply negb_true_iff, String.eqb_neq. congruence.
Qed.

Lemma occurrences_nodup words w :
  NoDup words -> w ∈ words -> occurrences w words = 1%Z.
Proof.
  intros Hnd Hw. unfold occurrences. apply NoDup_ListNoDup in Hnd.
  apply list_elem_of_In in Hw.
  rewrite (proj1 (NoDup_count_occ' String.string_dec words) Hnd w Hw).
  reflexivity.
Qed.

Lemma slice_to_map {A B} (f : A -> B) l n :
  map f (slice_to l n) = slice_to (map f l) n.
Proof.
  unfold slice_to. rewrite length_map.
  destruct (0 <=? n)%Z; symmetry; apply firstn_map.
Qed.

(** When no word is repeated, the ranking is the text itself. *)
Lemma ranking_nodup text :
  NoDup (split text) ->
  map fst (Sorting.sort_stable (fun y x => (snd x <? snd y)%Z)
             (count_words (split text))) = split text.
Proof.
  intros Hnd. pose proof (ranking_stable text 1) as Hst.
  rewrite (first_seen_nodup _ Hnd) in Hst.
  rewrite !filter_all_true in Hst; [exact Hst | |].
  - apply Forall_forall. intros w Hw.
    rewrite (occurrences_nodup _ _ Hnd Hw). reflexivity.
  - apply Forall_forall. intros w Hw.
    rewrite (occurrences_nodup _ _ Hnd (ranking_key_in_text _ _ Hw)).
    reflexivity.
Qed.

End ExtractorStability.

(** X8. Ties are broken by first occurrence. Whatever the limit, the
    keywords are the beginning of the full ranking (the one a limit as large
    as the text gives), and in that ranking the words of any one frequency
    stand in the order in which they first occur in the text. *)
Theorem extract_keywords_ties_by_first_occurrence
    (st : state) (text : string) (limit : Z) :
  exists keywords ranking,
    result_of (extract_keywords text limit) st = Ret keywords
    /\ result_of (extract_keywords text (Z.of_nat (length (split text)))) st
       = Ret ranking
    /\ (exists rest, ranking = (keywords ++ rest)%list)
    /\ forall n,
         List.filter (fun w => (occurrences w (split text) =? n)%Z) ranking =
         List.filter (fun w => (occurrences w (split text) =? n)%Z)
           (first_seen (split text)).
Proof.
  do 2 eexists. unfold result_of. rewrite !extract_keywords_run. cbn [fst].
  split; [reflexivity|].
  rewrite (slice_to_all _ (Z.of_nat (length (split text)))).
  - split; [reflexivity|]. split; [apply keywords_prefix|].
    intros n. apply ranking_stable.
  - rewrite (Permutation_length (sort_stable_perm _ _)).
    pose proof (count_words_length (split text)). lia.
Qed.

(** X10. On a text without repeated words, [extract_keywords] returns the
    words in the order of the text, cut by the slice [[:limit]]. *)
Theorem extract_keywords_without_repeats
    (st : state) (text : string) (limit : Z) :
  NoDup (split text) ->
  result_of (extract_keywords text limit) st = Ret (slice_to (split text) limit).
Proof.
  intros Hnd. unfold result_of. rewrite extract_keywords_run. cbn [fst].
  rewrite slice_to_map, (ranking_nodup text Hnd). reflexivity.
Qed.

Lemma extract_keywords_without_repeats_witness :
  NoDup (split "python sql aws docker")
  /\ result_of (extract_keywords "python sql aws docker" 3)
       (new_matcher ["the"; "and"] (fun _ => Raise FileNotFoundError))
     = Ret (slice_to (split "python sql aws docker") 3).
Proof.
  assert (H : NoDup (split "python sql aws docker")).
  { apply (bool_decide_unpack _). vm_compute. exact I. }
  split; [exact H|].
  exact (extract_keywords_without_repeats _ "python sql aws docker" 3 H).
Defined.

(** ** More on the skill set comparator *)

(** X11. The two skill lists have no duplicates, whatever the keyword lists
    hold: a word is matched when it is in both lists, and missing when it is
    a job keyword that is not a resume keyword. *)
Theorem skill_lists_without_duplicates
    (st : state) (resume_keywords job_keywords : list string) :
  exists matched missing,
    result_of (find_matched_skills resume_keywords job_keywords) st = Ret matched
    /\ result_of (find_missing_skills resume_keywords job_keywords) st = Ret missing
    /\ NoDup matched /\ NoDup missing
    /\ (forall w, w ∈ matched <-> w ∈ resume_keywords /\ w ∈ job_keywords)
    /\ (forall w, w ∈ missing <-> w ∈ job_keywords /\ w ∉ resume_keywords).
Proof.
  do 2 eexists. unfold result_of.
  rewrite find_matched_skills_run, find_missing_skills_run. cbn [fst].
  do 2 (split; [reflexivity|]).
  split; [apply NoDup_elements|]. split; [apply NoDup_elements|]. split.
  - intros w. rewrite elem_of_elements, elem_of_intersection,
      !elem_of_list_to_set. reflexivity.
  - intros w. rewrite elem_of_elements, elem_of_difference,
      !elem_of_list_to_set. reflexivity.
Qed.

(** X12. Matched and missing skills split the job keywords: every job
    keyword is in exactly one of the two lists, and their lengths add up to
    the number of distinct job keywords. *)
Theorem skills_split_job_keywords
    (st : state) (resume_keywords job_keywords : list string) :
  exists matched missing,
    result_of (find_matched_skills resume_keywords job_keywords) st = Ret matched
    /\ result_of (find_missing_skills resume_keywords job_keywords) st = Ret missing
    /\ (forall w, w ∈ job_keywords <-> w ∈ matched \/ w ∈ missing)
    /\ (forall w, w ∈ matched -> w ∉ missing)
    /\ (length matched + length missing)%nat
       = size (list_to_set job_keywords : gset string).
Proof.
  do 2 eexists. unfold result_of.
  rewrite find_matched_skills_run, find_missing_skills_run. cbn [fst].
  do 2 (split; [reflexivity|]).
  set (R := list_to_set resume_keywords : gset string).
  set (J := list_to_set job_keywords : gset string).
  split; [|split].
  - intros w. rewrite !elem_of_elements, <- (elem_of_list_to_set (C := gset string)).
    fold J. rewrite elem_of_intersection, elem_of_difference.
    destruct (decide (w ∈ R)); tauto.
  - intros w. rewrite !elem_of_elements, elem_of_intersection,
      elem_of_difference. tauto.
  - change (size (R ∩ J) + size (J ∖ R) = size J)%nat.
    rewrite <- size_union.
    + f_equal. apply set_eq. intros w.
      rewrite elem_of_union, elem_of_intersection, elem_of_difference.
      destruct (decide (w ∈ R)); tauto.
    + apply elem_of_disjoint. intros w.
      rewrite elem_of_intersection, elem_of_difference. tauto.
Qed.

(** ** More on reading files and on the orchestrator *)

Section OrchestratorRuns.

Variable sk : gset string.

Lemma is_empty_false text : text <> "" -> is_empty text = false.
Proof. destruct text; [congruence | reflexivity]. Qed.

(** The run of [match] on two texts that are not empty. *)
Lemma match_with_text rp jp st resume_text job_text :
  files st rp = Ret resume_text -> files st jp = Ret job_text ->
  resume_text <> "" -> job_text <> "" ->
  let S := stop_words (self st) in
  let resume_processed := SpecNormalizer.normalize S resume_text in
  let job_processed := SpecNormalizer.normalize S job_text in
  let resume_keywords := keywords_value resume_processed 30 in
  let job_keywords := keywords_value job_processed 30 in
  match_ sk rp jp st =
  (Ret (Some {|
     match_score := similarity sk resume_processed job_processed;
     match_percentage := similarity sk resume_processed job_processed * 100;
     matched_skills :=
       elements ((list_to_set resume_keywords : gset string)
                   ∩ list_to_set job_keywords);
     missing_skills :=
       elements ((list_to_set job_keywords : gset string)
                   ∖ list_to_set resume_keywords);
     resume_keywords := resume_keywords;
     job_keywords := job_keywords |}),
   {| self := self st; files := files st; stdout := stdout st;
      calls := (calls st ++ whole_pipeline)%list |}).
Proof.
  intros Hr Hj Hrt Hjt S resume_processed job_processed resume_keywords job_keywords.
  unfold match_. cbv [mbind M_bind enter].
  rewrite load_file_run. cbn [files]. rewrite Hr.
  rewrite load_file_run. cbv [logged enter snd]. cbn [files]. rewrite Hj.
  rewrite (is_empty_false _ Hrt), (is_empty_false _ Hjt). cbn [orb].
  rewrite !preprocess_text_run. cbv [logged enter snd]. cbn [self].
  rewrite !extract_keywords_run. cbv [logged enter snd].
  rewrite calculate_match_score_run. cbv [logged enter snd].
  rewrite find_matched_skills_run. cbv [logged enter snd].
  rewrite find_missing_skills_run. cbv [logged enter snd mret M_ret].
  cbn [self files stdout calls]. unfold whole_pipeline.
  rewrite <- !app_assoc. reflexivity.
Qed.

End OrchestratorRuns.

Section OrchestratorCases.

Variable sk : gset string.

Lemma isinstance_file_not_found e :
  isinstance e FileNotFoundError = true <-> e = FileNotFoundError.
Proof. destruct e; simpl; split; intros H; congruence. Qed.

Lemma isinstance_other e :
  e <> FileNotFoundError -> isinstance e FileNotFoundError = false.
Proof.
  intros H. destruct (isinstance e FileNotFoundError) eqn:E; [|reflexivity].
  apply isinstance_file_not_found in E. contradiction.
Qed.

Lemma found_or_missing_cases r :
  found_or_missing r -> no_text r \/ has_text r.
Proof.
  intros H. destruct r as [text|e].
  - destruct text as [|c text].
    + left. left. reflexivity.
    + right. exists (String c text). split; [reflexivity | discriminate].
  - left. right. rewrite (H e eq_refl). reflexivity.
Qed.

Lemma has_text_not_no_text r : has_text r -> ~ no_text r.
Proof. intros (text & -> & Hne) [H|H]; congruence. Qed.

Lemma match_first_read_raises rp jp st e :
  files st rp = Raise e -> e <> FileNotFoundError ->
  result_of (match_ sk rp jp) st = Raise e.
Proof.
  intros Hr He. unfold result_of, match_. cbv [mbind M_bind enter].
  rewrite load_file_run. cbn [files]. rewrite Hr, (isinstance_other e He).
  reflexivity.
Qed.

Lemma match_second_read_raises rp jp st e :
  found_or_missing (files st rp) ->
  files st jp = Raise e -> e <> FileNotFoundError ->
  result_of (match_ sk rp jp) st = Raise e.
Proof.
  intros Hr Hj He.
  destruct (load_file_text rp (logged m_match st) Hr)
    as (resume_text & st1 & E1 & F1 & _).
  unfold result_of, match_. cbv [mbind M_bind enter].
  change {| self := self st; files := files st; stdout := stdout st;
            calls := calls st ++ [m_match] |} with (logged m_match st).
  rewrite E1, load_file_run, F1. cbn [logged enter snd files].
  rewrite Hj, (isinstance_other e He). reflexivity.
Qed.

(** When both reads succeed or find no file, [match] returns, and it
    returns [None] exactly when one of them gave no text. *)
Lemma match_returns rp jp st :
  found_or_missing (files st rp) -> found_or_missing (files st jp) ->
  exists r, result_of (match_ sk rp jp) st = Ret r
            /\ (r = None <-> no_text (files st rp) \/ no_text (files st jp)).
Proof.
  intros Hr Hj.
  destruct (found_or_missing_cases _ Hr) as [Nr|Tr].
  - exists None. split; [|tauto].
    apply match_without_text; [assumption | assumption | left; exact Nr].
  - destruct (found_or_missing_cases _ Hj) as [Nj|Tj].
    + exists None. split; [|tauto].
      apply match_without_text; [assumption | assumption | right; exact Nj].
    + destruct Tr as (rt & Er & Hrt). destruct Tj as (jt & Ej & Hjt).
      eexists. unfold result_of.
      rewrite (match_with_text sk rp jp st rt jt Er Ej Hrt Hjt). cbn [fst].
      split; [reflexivity|]. split; [discriminate|].
      intros [[H|H]|[H|H]]; congruence.
Qed.

End OrchestratorCases.

(** X13. [load_file] raises exactly the exceptions of the read that are not
    [FileNotFoundError], unchanged: a missing file never makes it raise, any
    other failure of the read always does. *)
Theorem load_file_raises_iff (st : state) (file_path : string) (e : exn) :
  result_of (load_file file_path) st = Raise e
  <-> files st file_path = Raise e /\ e <> FileNotFoundError.
Proof.
  unfold result_of. rewrite load_file_run.
  destruct (files st file_path) as [text|e0].
  - cbn [fst]. split; [discriminate | intros [H _]; discriminate].
  - destruct (isinstance e0 FileNotFoundError) eqn:E; cbn [fst].
    + apply isinstance_file_not_found in E. subst e0.
      split; [discriminate | intros [H Hne]; congruence].
    + split.
      * intros H. split; [exact H|]. intros ->.
        inversion H; subst. discriminate E.
      * intros [H _]. exact H.
Qed.

(** X14. [load_file] returns the empty text exactly when the file is empty
    or missing, and it prints exactly when the file is missing: then one
    line, which names the path. The files themselves are never changed. *)
Theorem load_file_empty_and_printing (st : state) (file_path : string) :
  (result_of (load_file file_path) st = Ret "" <-> no_text (files st file_path))
  /\ (files st file_path = Raise FileNotFoundError ->
      stdout (state_after (load_file file_path) st)
      = (stdout st ++ [("Error: File '" ++ file_path ++ "' not found.")%string])%list)
  /\ (files st file_path <> Raise FileNotFoundError ->
      stdout (state_after (load_file file_path) st) = stdout st)
  /\ files (state_after (load_file file_path) st) = files st.
Proof.
  unfold result_of, state_after, no_text. rewrite load_file_run.
  destruct (files st file_path) as [text|e0].
  - cbn [fst snd]. split; [|split; [discriminate | split; reflexivity]].
    split; [intros H; left; exact H | intros [H|H]; [exact H | discriminate]].
  - destruct (isinstance e0 FileNotFoundError) eqn:E; cbn [fst snd].
    + apply isinstance_file_not_found in E. subst e0.
      split; [split; [right; reflexivity | reflexivity]|].
      split; [reflexivity|]. split; [congruence | reflexivity].
    + split; [split; [discriminate | intros [H|H]; [discriminate|]]|].
      * inversion H; subst. discriminate E.
      * split; [|split; reflexivity].
        intros H. inversion H; subst. discriminate E.
Qed.

(** X15. When each of the two reads succeeds or finds no file, [match]
    returns [None] exactly when one of the files is empty or missing;
    otherwise it returns a result. *)
Theorem match_returns_none_iff
    (ENGLISH_STOP_WORDS : gset string) (st : state) (resume_path job_path : string) :
  found_or_missing (files st resume_path) ->
  found_or_missing (files st job_path) ->
  (exists r, result_of (match_ ENGLISH_STOP_WORDS resume_path job_path) st = Ret r)
  /\ (result_of (match_ ENGLISH_STOP_WORDS resume_path job_path) st = Ret None
      <-> no_text (files st resume_path) \/ no_text (files st job_path)).
Proof.
  intros Hr Hj.
  destruct (match_returns ENGLISH_STOP_WORDS resume_path job_path st Hr Hj)
    as (r & Hres & Hnone).
  split; [exists r; exact Hres|]. rewrite Hres. rewrite <- Hnone.
  split; [intros H; inversion H; reflexivity | intros ->; reflexivity].
Qed.

Lemma match_returns_none_iff_witness :
  let st := new_matcher ["the"; "and"]
              (fun p => if String.eqb p "job.txt" then Ret "Python and SQL"
                        else if String.eqb p "resume.txt" then Ret "SQL and AWS"
                        else Raise FileNotFoundError) in
  found_or_missing (files st "resume.txt")
  /\ found_or_missing (files st "job.txt")
  /\ (result_of (match_ ∅ "resume.txt" "job.txt") st = Ret None
      <-> no_text (files st "resume.txt") \/ no_text (files st "job.txt")).
Proof.
  intros st.
  assert (Hr : found_or_missing (files st "resume.txt")).
  { intros e He. simpl in He. congruence. }
  assert (Hj : found_or_missing (files st "job.txt")).
  { intros e He. simpl in He. congruence. }
  split; [exact Hr|]. split; [exact Hj|].
  exact (proj2 (match_returns_none_iff ∅ st "resume.txt" "job.txt" Hr Hj)).
Defined.

(** X16. [match] raises exactly what a read raises: the error, other than
    [FileNotFoundError], of the resume read, or else that of the job read.
    Nothing in the pipeline after the reads raises. *)
Theorem match_raises_iff
    (ENGLISH_STOP_WORDS : gset string) (st : state)
    (resume_path job_path : string) (e : exn) :
  result_of (match_ ENGLISH_STOP_WORDS resume_path job_path) st = Raise e
  <-> (files st resume_path = Raise e /\ e <> FileNotFoundError)
      \/ (found_or_missing (files st resume_path)
          /\ files st job_path = Raise e /\ e <> FileNotFoundError).
Proof.
  assert (Hdec : forall r : outcome string,
            found_or_missing r \/ exists e0, r = Raise e0 /\ e0 <> FileNotFoundError).
  { intros [text|e0].
    - left. intros e1 H. discriminate H.
    - destruct e0; first [ left; intros e1 H; congruence
                         | right; eexists; split; [reflexivity | discriminate] ]. }
  split.
  - intros Hraise.
    destruct (Hdec (files st resume_path)) as [Hr|(e1 & Hr & Hne1)].
    + destruct (Hdec (files st job_path)) as [Hj|(e2 & Hj & Hne2)].
      * destruct (match_returns ENGLISH_STOP_WORDS _ _ st Hr Hj) as (r & Hres & _).
        congruence.
      * rewrite (match_second_read_raises ENGLISH_STOP_WORDS _ _ st e2 Hr Hj Hne2)
          in Hraise.
        inversion Hraise; subst. right. auto.
    + rewrite (match_first_read_raises ENGLISH_STOP_WORDS _ job_path st e1 Hr Hne1)
        in Hraise.
      inversion Hraise; subst. left. auto.
  - intros [[Hr Hne]|(Hr & Hj & Hne)].
    + apply match_first_read_raises; assumption.
    + apply match_second_read_raises; assumption.
Qed.

(** X17. When both files hold text, [match] returns a result and runs the
    whole pipeline once, in this order: the two reads, the two
    normalizations, the two keyword extractions, the score, the matched and
    the missing skills. It prints nothing and changes neither the files nor
    the matcher. *)
Theorem match_runs_whole_pipeline
    (ENGLISH_STOP_WORDS : gset string) (st : state) (resume_path job_path : string) :
  has_text (files st resume_path) -> has_text (files st job_path) ->
  (exists r, result_of (match_ ENGLISH_STOP_WORDS resume_path job_path) st
             = Ret (Some r))
  /\ state_after (match_ ENGLISH_STOP_WORDS resume_path job_path) st
     = {| self := self st; files := files st; stdout := stdout st;
          calls := (calls st ++ whole_pipeline)%list |}.
Proof.
  intros (rt & Hr & Hrt) (jt & Hj & Hjt). unfold result_of, state_after.
  rewrite (match_with_text ENGLISH_STOP_WORDS _ _ st rt jt Hr Hj Hrt Hjt).
  split; [eexists; reflexivity | reflexivity].
Qed.

Lemma match_runs_whole_pipeline_witness :
  let st := new_matcher ["the"; "and"]
              (fun p => if String.eqb p "job.txt" then Ret "Python and SQL"
                        else Ret "SQL and AWS") in
  has_text (files st "resume.txt") /\ has_text (files st "job.txt")
  /\ state_after (match_ ∅ "resume.txt" "job.txt") st
     = {| self := self st; files := files st; stdout := stdout st;
          calls := (calls st ++ whole_pipeline)%list |}.
Proof.
  intros st.
  assert (Hr : has_text (files st "resume.txt")).
  { eexists. split; [reflexivity | discriminate]. }
  assert (Hj : has_text (files st "job.txt")).
  { eexists. split; [reflexivity | discriminate]. }
  split; [exact Hr|]. split; [exact Hj|].
  exact (proj2 (match_runs_whole_pipeline ∅ st "resume.txt" "job.txt" Hr Hj)).
Defined.

Section ResultFacts.

Lemma keywords_value_nodup text n : NoDup (keywords_value text n).
Proof. apply extract_keywords_nodup. Qed.

Lemma keywords_value_length text n :
  (0 <= n)%Z -> (Z.of_nat (length (keywords_value text n)) <= n)%Z.
Proof.
  intros Hn. unfold keywords_value. rewrite length_map.
  apply slice_to_length. exact Hn.
Qed.

Lemma keywords_value_normalized S text n :
  Forall (fun w => (w ∉ S) /\ (2 < len w)%Z)
    (keywords_value (SpecNormalizer.normalize S text) n).
Proof.
  apply Forall_forall. intros w Hw.
  pose proof (normalize_words_kept S text) as Hwords.
  rewrite Forall_forall in Hwords. apply Hwords.
  apply (keywords_in_text _ n). exact Hw.
Qed.

Lemma keywords_value_empty n : keywords_value "" n = [].
Proof.
  unfold keywords_value, slice_to. simpl.
  destruct (0 <=? n)%Z; rewrite firstn_nil; reflexivity.
Qed.

End ResultFacts.

(** X18. In a result of [match], each of the two keyword lists has at most
    30 entries, no entry twice, and holds neither a stopword of the matcher
    nor a word of fewer than three characters. *)
Theorem match_result_keywords
    (ENGLISH_STOP_WORDS : gset string) (st : state) (resume_path job_path : string) :
  has_text (files st resume_path) -> has_text (files st job_path) ->
  exists r,
    result_of (match_ ENGLISH_STOP_WORDS resume_path job_path) st = Ret (Some r)
    /\ Forall (fun keywords =>
                 (length keywords <= 30)%nat
                 /\ NoDup keywords
                 /\ Forall (fun w => (w ∉ stop_words (self st)) /\ (2 < len w)%Z)
                      keywords)
         [resume_keywords r; job_keywords r].
Proof.
  intros (rt & Hr & Hrt) (jt & Hj & Hjt). eexists. unfold result_of.
  rewrite (match_with_text ENGLISH_STOP_WORDS _ _ st rt jt Hr Hj Hrt Hjt).
  cbn [fst]. split; [reflexivity|]. cbn [resume_keywords job_keywords].
  assert (Hlen : forall text,
            (length (keywords_value text 30) <= 30)%nat).
  { intros text. pose proof (keywords_value_length text 30 ltac:(lia)). lia. }
  constructor; [|constructor; [|constructor]].
  - split; [apply Hlen|].
    split; [apply keywords_value_nodup | apply keywords_value_normalized].
  - split; [apply Hlen|].
    split; [apply keywords_value_nodup | apply keywords_value_normalized].
Qed.

Lemma match_result_keywords_witness :
  let st := new_matcher ["the"; "and"]
              (fun p => if String.eqb p "job.txt" then Ret "Python and SQL"
                        else Ret "SQL and AWS") in
  has_text (files st "resume.txt") /\ has_text (files st "job.txt")
  /\ exists r,
       result_of (match_ ∅ "resume.txt" "job.txt") st = Ret (Some r)
       /\ Forall (fun keywords =>
                    (length keywords <= 30)%nat
                    /\ NoDup keywords
                    /\ Forall (fun w => (w ∉ stop_words (self st)) /\ (2 < len w)%Z)
                         keywords)
            [resume_keywords r; job_keywords r].
Proof.
  intros st.
  assert (Hr : has_text (files st "resume.txt")).
  { eexists. split; [reflexivity | discriminate]. }
  assert (Hj : has_text (files st "job.txt")).
  { eexists. split; [reflexivity | discriminate]. }
  split; [exact Hr|]. split; [exact Hj|].
  exact (match_result_keywords ∅ st "resume.txt" "job.txt" Hr Hj).
Defined.

(** X19. A result of [match] is consistent: its matched skills are the
    keywords found in both of its keyword lists, its missing skills are its
    job keywords that are not resume keywords, neither list has duplicates,
    together they have as many entries as there are job keywords, and the
    percentage is the score times 100. *)
Theorem match_result_consistent
    (ENGLISH_STOP_WORDS : gset string) (st : state) (resume_path job_path : string) :
  has_text (files st resume_path) -> has_text (files st job_path) ->
  exists r,
    result_of (match_ ENGLISH_STOP_WORDS resume_path job_path) st = Ret (Some r)
    /\ NoDup (matched_skills r) /\ NoDup (missing_skills r)
    /\ (forall w, w ∈ matched_skills r
                  <-> w ∈ resume_keywords r /\ w ∈ job_keywords r)
    /\ (forall w, w ∈ missing_skills r
                  <-> w ∈ job_keywords r /\ w ∉ resume_keywords r)
    /\ (length (matched_skills r) + length (missing_skills r))%nat
       = length (job_keywords r)
    /\ match_percentage r = (match_score r * 100)%R.
Proof.
  intros (rt & Hr & Hrt) (jt & Hj & Hjt). eexists. unfold result_of.
  rewrite (match_with_text ENGLISH_STOP_WORDS _ _ st rt jt Hr Hj Hrt Hjt).
  cbn [fst]. split; [reflexivity|].
  cbn [resume_keywords job_keywords matched_skills missing_skills
       match_score match_percentage].
  set (RK := keywords_value _ 30). set (JK := keywords_value _ 30).
  split; [apply NoDup_elements|]. split; [apply NoDup_elements|].
  split; [|split; [|split; [|reflexivity]]].
  - intros w. rewrite elem_of_elements, elem_of_intersection,
      !elem_of_list_to_set. reflexivity.
  - intros w. rewrite elem_of_elements, elem_of_difference,
      !elem_of_list_to_set. reflexivity.
  - rewrite <- (size_list_to_set (C := gset string) JK)
      by apply keywords_value_nodup.
    set (R := list_to_set RK : gset string).
    set (J := list_to_set JK : gset string).
    change (size (R ∩ J) + size (J ∖ R) = size J)%nat.
    rewrite <- size_union.
    + f_equal. apply set_eq. intros w.
      rewrite elem_of_union, elem_of_intersection, elem_of_difference.
      destruct (decide (w ∈ R)); tauto.
    + apply elem_of_disjoint. intros w.
      rewrite elem_of_intersection, elem_of_difference. tauto.
Qed.

Lemma match_result_consistent_witness :
  let st := new_matcher ["the"; "and"]
              (fun p => if String.eqb p "job.txt" then Ret "Python and SQL"
                        else Ret "SQL and AWS") in
  has_text (files st "resume.txt") /\ has_text (files st "job.txt")
  /\ exists r,
       result_of (match_ ∅ "resume.txt" "job.txt") st = Ret (Some r)
       /\ (length (matched_skills r) + length (missing_skills r))%nat
          = length (job_keywords r).
Proof.
  intros st.
  assert (Hr : has_text (files st "resume.txt")).
  { eexists. split; [reflexivity | discriminate]. }
  assert (Hj : has_text (files st "job.txt")).
  { eexists. split; [reflexivity | discriminate]. }
  split; [exact Hr|]. split; [exact Hj|].
  destruct (match_result_consistent ∅ st "resume.txt" "job.txt" Hr Hj)
    as (r & Hres & _ & _ & _ & _ & Hlen & _).
  exists r. split; [exact Hres | exact Hlen].
Defined.

(** X20. When the two files hold the same text, the result has the same
    keywords on both sides, no missing skill, and every keyword matched. *)
Theorem match_same_text
    (ENGLISH_STOP_WORDS : gset string) (st : state)
    (resume_path job_path text : string) :
  files st resume_path = Ret text -> files st job_path = Ret text ->
  text <> "" ->
  exists r,
    result_of (match_ ENGLISH_STOP_WORDS resume_path job_path) st = Ret (Some r)
    /\ resume_keywords r = job_keywords r
    /\ missing_skills r = []
    /\ (forall w, w ∈ matched_skills r <-> w ∈ job_keywords r)
    /\ length (matched_skills r) = length (job_keywords r).
Proof.
  intros Hr Hj Ht. eexists. unfold result_of.
  rewrite (match_with_text ENGLISH_STOP_WORDS _ _ st text text Hr Hj Ht Ht).
  cbn [fst]. split; [reflexivity|].
  cbn [resume_keywords job_keywords matched_skills missing_skills].
  split; [reflexivity|].
  set (JK := keywords_value _ 30).
  rewrite difference_diag_L, elements_empty, (idemp_L (∩)).
  split; [reflexivity|]. split.
  - intros w. rewrite elem_of_elements, elem_of_list_to_set. reflexivity.
  - change (size (list_to_set JK : gset string) = length JK).
    apply size_list_to_set, keywords_value_nodup.
Qed.

Lemma match_same_text_witness :
  let st := new_matcher ["the"; "and"] (fun _ => Ret "Python and SQL and AWS") in
  files st "resume.txt" = Ret "Python and SQL and AWS"
  /\ files st "job.txt" = Ret "Python and SQL and AWS"
  /\ "Python and SQL and AWS" <> ""
  /\ exists r,
       result_of (match_ ∅ "resume.txt" "job.txt") st = Ret (Some r)
       /\ missing_skills r = [].
Proof.
  intros st.
  assert (Hne : "Python and SQL and AWS" <> "") by discriminate.
  split; [reflexivity|]. split; [reflexivity|]. split; [exact Hne|].
  destruct (match_same_text ∅ st "resume.txt" "job.txt" "Python and SQL and AWS"
              eq_refl eq_refl Hne) as (r & Hres & _ & Hmiss & _).
  exists r. split; [exact Hres | exact Hmiss].
Defined.

(** X21. A resume that holds text but no keyword (stopwords, short words or
    punctuation only) is no failure: [match] returns a result with score and
    percentage 0, no resume keyword, no matched skill, and every job keyword
    missing. *)
Theorem match_resume_without_keywords
    (ENGLISH_STOP_WORDS : gset string) (st : state)
    (resume_path job_path resume_text : string) :
  files st resume_path = Ret resume_text -> resume_text <> "" ->
  result_of (preprocess_text resume_text) st = Ret "" ->
  has_text (files st job_path) ->
  exists r,
    result_of (match_ ENGLISH_STOP_WORDS resume_path job_path) st = Ret (Some r)
    /\ match_score r = 0%R /\ match_percentage r = 0%R
    /\ resume_keywords r = [] /\ matched_skills r = []
    /\ (forall w, w ∈ missing_skills r <-> w ∈ job_keywords r).
Proof.
  intros Hr Hrt Hpre (jt & Hj & Hjt).
  unfold result_of in Hpre. rewrite preprocess_text_run in Hpre.
  cbn [fst] in Hpre. inversion Hpre as [Hnorm].
  eexists. unfold result_of.
  rewrite (match_with_text ENGLISH_STOP_WORDS _ _ st resume_text jt Hr Hj Hrt Hjt).
  cbn [fst]. split; [reflexivity|].
  cbn [resume_keywords job_keywords matched_skills missing_skills
       match_score match_percentage].
  rewrite Hnorm, keywords_value_empty, similarity_empty_l.
  split; [reflexivity|]. split; [apply Rmult_0_l|].
  split; [reflexivity|].
  change (list_to_set [] : gset string) with (∅ : gset string).
  rewrite (left_absorb_L ∅ (∩)), elements_empty, difference_empty_L.
  split; [reflexivity|].
  intros w. rewrite elem_of_elements, elem_of_list_to_set. reflexivity.
Qed.

Lemma match_resume_without_keywords_witness :
  let st := new_matcher ["the"; "and"]
              (fun p => if String.eqb p "job.txt" then Ret "Python and SQL"
                        else Ret "The, and... the!") in
  files st "resume.txt" = Ret "The, and... the!"
  /\ "The, and... the!" <> ""
  /\ result_of (preprocess_text "The, and... the!") st = Ret ""
  /\ has_text (files st "job.txt")
  /\ exists r,
       result_of (match_ ∅ "resume.txt" "job.txt") st = Ret (Some r)
       /\ match_score r = 0%R /\ resume_keywords r = [].
Proof.
  intros st.
  assert (Hne : "The, and... the!" <> "") by discriminate.
  assert (Hpre : result_of (preprocess_text "The, and... the!") st = Ret "")
    by reflexivity.
  assert (Hj : has_text (files st "job.txt")).
  { eexists. split; [reflexivity | discriminate]. }
  split; [reflexivity|]. split; [exact Hne|]. split; [exact Hpre|].
  split; [exact Hj|].
  destruct (match_resume_without_keywords ∅ st "resume.txt" "job.txt"
              "The, and... the!" eq_refl Hne Hpre Hj)
    as (r & Hres & Hscore & _ & Hkw & _).
  exists r. split; [exact Hres|]. split; [exact Hscore | exact Hkw].
Defined.

(** ** The report *)

Section DisplayFacts.

Variable format_1f : R -> string.
Variable check_mark ballot_x : string.

Lemma prints_print line : prints (print line) [line].
Proof. intros st. reflexivity. Qed.

Lemma prints_ret : prints (mret tt) [].
Proof. intros [s f o c]. cbv [mret M_ret]. simpl. rewrite app_nil_r. reflexivity. Qed.

Lemma prints_seq (m1 m2 : M unit) l1 l2 :
  prints m1 l1 -> prints m2 l2 -> prints (m1 ;; m2) (l1 ++ l2).
Proof.
  intros H1 H2 st. cbv [mbind M_bind]. rewrite H1, H2. simpl.
  rewrite app_assoc. reflexivity.
Qed.

Lemma prints_for_each {A} (l : list A) (line : A -> string) :
  prints (for_each l (fun x => print (line x))) (map line l).
Proof.
  induction l as [|x l IH]; simpl.
  - apply prints_ret.
  - apply (prints_seq _ _ [line x]); [apply prints_print | exact IH].
Qed.

(** The status line of the report. *)
Lemma prints_status pct :
  prints
    (if Rge_dec pct 80 then print ("Status: EXCELLENT MATCH " ++ check_mark)
     else if Rge_dec pct 60 then print ("Status: GOOD MATCH " ++ check_mark)
     else if Rge_dec pct 40 then print "Status: MODERATE MATCH"
     else print "Status: WEAK MATCH")
    [if Rge_dec pct 80 then "Status: EXCELLENT MATCH " ++ check_mark
     else if Rge_dec pct 60 then "Status: GOOD MATCH " ++ check_mark
     else if Rge_dec pct 40 then "Status: MODERATE MATCH"
     else "Status: WEAK MATCH"].
Proof.
  destruct (Rge_dec pct 80); [apply prints_print|].
  destruct (Rge_dec pct 60); [apply prints_print|].
  destruct (Rge_dec pct 40); apply prints_print.
Qed.

Lemma prints_matched skills :
  prints
    (match skills with
     | [] => print "  (No overlapping skills found)"
     | _ => for_each (sorted skills)
              (fun skill => print (("  " ++ check_mark ++ " " ++ skill)%string))
     end)
    (match skills with
     | [] => ["  (No overlapping skills found)"]
     | _ => map (fun skill : string => ("  " ++ check_mark ++ " " ++ skill)%string) (sorted skills)
     end).
Proof.
  destruct skills; [apply prints_print|].
  apply (prints_for_each _ (fun skill : string => ("  " ++ check_mark ++ " " ++ skill)%string)).
Qed.

Lemma prints_missing skills :
  prints
    (match skills with
     | [] => print "  (All job skills are present in resume)"
     | _ =>
         for_each (slice_to (sorted skills) 10)
           (fun skill => print (("  " ++ ballot_x ++ " " ++ skill)%string));;
         if (10 <? Z.of_nat (length skills))%Z then
           print ("  ... and " ++ str_int (Z.of_nat (length skills) - 10)
                  ++ " more")
         else mret tt
     end)
    (match skills with
     | [] => ["  (All job skills are present in resume)"]
     | _ =>
         map (fun skill : string => ("  " ++ ballot_x ++ " " ++ skill)%string)
           (slice_to (sorted skills) 10)
         ++ (if (10 <? Z.of_nat (length skills))%Z then
               [("  ... and " ++ str_int (Z.of_nat (length skills) - 10)
                 ++ " more")%string]
             else [])
     end)%list.
Proof.
  destruct skills as [|s skills]; [apply prints_print|].
  apply prints_seq.
  - apply (prints_for_each _ (fun skill : string => ("  " ++ ballot_x ++ " " ++ skill)%string)).
  - destruct (10 <? _)%Z; [apply prints_print | apply prints_ret].
Qed.

(** The lines of a report, in the order in which they are printed. *)
Lemma display_results_report r :
  prints (display_results format_1f check_mark ballot_x (Some r))
    ([String "010" (repeat_string "=" 60);
      "JOB MATCHING RESULTS";
      repeat_string "=" 60;
      String "010" ("Match Score: " ++ format_1f (match_percentage r) ++ "%")%string]
     ++ [if Rge_dec (match_percentage r) 80
         then ("Status: EXCELLENT MATCH " ++ check_mark)%string
         else if Rge_dec (match_percentage r) 60
         then ("Status: GOOD MATCH " ++ check_mark)%string
         else if Rge_dec (match_percentage r) 40 then "Status: MODERATE MATCH"
         else "Status: WEAK MATCH"]
     ++ [String "010" ("Matched Skills ("
           ++ str_int (Z.of_nat (length (matched_skills r))) ++ "):")%string]
     ++ (match matched_skills r with
         | [] => ["  (No overlapping skills found)"]
         | _ => map (fun skill : string => ("  " ++ check_mark ++ " " ++ skill)%string)
                  (sorted (matched_skills r))
         end)
     ++ [String "010" ("Missing Skills ("
           ++ str_int (Z.of_nat (length (missing_skills r))) ++ "):")%string]
     ++ (match missing_skills r with
         | [] => ["  (All job skills are present in resume)"]
         | _ =>
             map (fun skill : string => ("  " ++ ballot_x ++ " " ++ skill)%string)
               (slice_to (sorted (missing_skills r)) 10)
             ++ (if (10 <? Z.of_nat (length (missing_skills r)))%Z then
                   [("  ... and "
                     ++ str_int (Z.of_nat (length (missing_skills r)) - 10)
                     ++ " more")%string]
                 else [])
         end)
     ++ [String "010" (repeat_string "=" 60)])%list.
Proof.
  unfold display_results.
  apply (prints_seq _ _ [_]); [apply prints_print|].
  apply (prints_seq _ _ [_]); [apply prints_print|].
  apply (prints_seq _ _ [_]); [apply prints_print|].
  apply (prints_seq _ _ [_]); [apply prints_print|].
  apply prints_seq; [apply prints_status|].
  apply prints_seq; [apply prints_print|].
  apply prints_seq; [apply prints_matched|].
  apply prints_seq; [apply prints_print|].
  apply prints_seq; [apply prints_missing|].
  apply prints_print.
Qed.

Lemma sorted_length skills : length (sorted skills) = length skills.
Proof. apply Permutation_length, sort_stable_perm. Qed.

Lemma sorted_elem skills s : s ∈ sorted skills <-> s ∈ skills.
Proof. unfold sorted. rewrite sort_stable_perm. reflexivity. Qed.

End DisplayFacts.

Section DisplayComposition.

Variable sk : gset string.
Variable format_1f : R -> string.
Variable check_mark ballot_x : string.

(** [load_file] when the read does not raise: the text, the line printed
    for a missing file, one more call. *)
Lemma load_file_state p st :
  found_or_missing (files st p) ->
  exists text,
    load_file p st =
    (Ret text, {| self := self st; files := files st;
                  stdout := stdout st ++ missing_message st p;
                  calls := calls st ++ [m_load_file] |})
    /\ (no_text (files st p) -> text = "").
Proof.
  intros Hp. rewrite load_file_run. unfold missing_message.
  destruct (files st p) as [text|e] eqn:E.
  - exists text. cbv [logged enter snd]. rewrite app_nil_r.
    split; [reflexivity|]. intros [H|H]; congruence.
  - rewrite (Hp e eq_refl). cbn [isinstance]. exists "".
    split; [reflexivity | reflexivity].
Qed.

Lemma match_without_text_state rp jp st :
  found_or_missing (files st rp) -> found_or_missing (files st jp) ->
  no_text (files st rp) \/ no_text (files st jp) ->
  match_ sk rp jp st =
  (Ret None,
   {| self := self st; files := files st;
      stdout := stdout st ++ missing_message st rp ++ missing_message st jp;
      calls := calls st ++ [m_match; m_load_file; m_load_file] |}).
Proof.
  intros Hr Hj Hno.
  destruct (load_file_state rp (logged m_match st) Hr) as (rt & E1 & T1).
  set (st1 := {| self := self (logged m_match st);
                 files := files (logged m_match st);
                 stdout := stdout (logged m_match st)
                           ++ missing_message (logged m_match st) rp;
                 calls := calls (logged m_match st) ++ [m_load_file] |}) in E1.
  destruct (load_file_state jp st1 Hj) as (jt & E2 & T2).
  assert (Hempty : is_empty rt || is_empty jt = true).
  { destruct Hno as [H|H].
    - apply is_empty_or_l, T1, H.
    - apply is_empty_or_r, T2, H. }
  unfold match_. cbv [mbind M_bind enter].
  change {| self := self st; files := files st; stdout := stdout st;
            calls := calls st ++ [m_match] |} with (logged m_match st).
  rewrite E1, E2, Hempty. cbv [mret M_ret]. f_equal.
  unfold st1, missing_message. cbn [logged enter snd self files stdout calls].
  rewrite <- !app_assoc. reflexivity.
Qed.

Lemma display_results_none st :
  display_results format_1f check_mark ballot_x None st =
  (Ret tt, {| self := self st; files := files st;
              stdout := stdout st ++ ["Error: Could not process files."];
              calls := calls st |}).
Proof. reflexivity. Qed.

End DisplayComposition.

(** X22. What [display_results] writes: it appends lines to standard output
    and leaves the matcher, the files and the log of calls alone. For [None]
    that is the one line of failure; for a result it is eight fixed lines,
    one line per matched skill (or one line saying there is none) and at most
    ten lines of missing skills, followed by one line counting the rest when
    there are more than ten (or one line saying none is missing). *)
Theorem display_results_lines
    (format_1f : R -> string) (check_mark ballot_x : string)
    (st : state) (results : option MatchResult) :
  exists lines,
    stdout (state_after
              (display_results format_1f check_mark ballot_x results) st)
    = (stdout st ++ lines)%list
    /\ self (state_after
               (display_results format_1f check_mark ballot_x results) st)
       = self st
    /\ files (state_after
                (display_results format_1f check_mark ballot_x results) st)
       = files st
    /\ calls (state_after
                (display_results format_1f check_mark ballot_x results) st)
       = calls st
    /\ (results = None -> lines = ["Error: Could not process files."])
    /\ (forall r, results = Some r ->
          length lines =
          (8 + lines_for None (matched_skills r)
             + lines_for (Some 10%nat) (missing_skills r))%nat).
Proof.
  unfold state_after. destruct results as [r|].
  - eexists. rewrite (display_results_report format_1f check_mark ballot_x r st).
    cbn [snd stdout self files calls].
    do 4 (split; [reflexivity|]).
    split; [discriminate|]. intros r' Hr'. inversion Hr'; subst r'.
    rewrite !length_app. cbn [length]. unfold lines_for.
    destruct (matched_skills r) as [|m ms] eqn:Em;
      destruct (missing_skills r) as [|x xs] eqn:Ex; cbn [length];
      rewrite ?length_app, ?length_map, ?sorted_length; cbn [length]; try lia.
    + change (slice_to (sorted (x :: xs)) 10) with (firstn 10 (sorted (x :: xs))).
      rewrite length_firstn, sorted_length. cbn [length].
      destruct (Z.ltb_spec 10 (Z.of_nat (S (length xs))));
        destruct (Nat.ltb_spec 10 (S (length xs))); cbn [length]; lia.
    + change (slice_to (sorted (x :: xs)) 10) with (firstn 10 (sorted (x :: xs))).
      rewrite length_firstn, sorted_length. cbn [length].
      destruct (Z.ltb_spec 10 (Z.of_nat (S (length xs))));
        destruct (Nat.ltb_spec 10 (S (length xs))); cbn [length]; lia.
  - eexists. rewrite display_results_none. cbn [snd stdout self files calls].
    do 4 (split; [reflexivity|]).
    split; [reflexivity | discriminate].
Qed.

(** X23. The report names every matched skill on a line of its own, and
    every missing skill when there are at most ten of them; when there are
    more than ten, it says how many it leaves out. *)
Theorem display_results_lists_skills
    (format_1f : R -> string) (check_mark ballot_x : string)
    (st : state) (r : MatchResult) :
  exists lines,
    stdout (state_after
              (display_results format_1f check_mark ballot_x (Some r)) st)
    = (stdout st ++ lines)%list
    /\ (forall skill, skill ∈ matched_skills r ->
          ("  " ++ check_mark ++ " " ++ skill)%string ∈ lines)
    /\ ((length (missing_skills r) <= 10)%nat ->
        forall skill, skill ∈ missing_skills r ->
          ("  " ++ ballot_x ++ " " ++ skill)%string ∈ lines)
    /\ ((10 < length (missing_skills r))%nat ->
        ("  ... and "
         ++ str_int (Z.of_nat (length (missing_skills r)) - 10)
         ++ " more")%string ∈ lines).
Proof.
  eexists. unfold state_after.
  rewrite (display_results_report format_1f check_mark ballot_x r st).
  cbn [snd stdout]. split; [reflexivity|]. split; [|split].
  - intros skill Hs. rewrite !elem_of_app. do 3 right. left.
    destruct (matched_skills r) as [|m ms] eqn:E.
    + apply elem_of_nil in Hs. contradiction.
    + apply (list_elem_of_fmap_2
               (fun skill : string => ("  " ++ check_mark ++ " " ++ skill)%string)).
      apply sorted_elem. exact Hs.
  - intros Hlen skill Hs. rewrite !elem_of_app. do 5 right. left.
    destruct (missing_skills r) as [|x xs] eqn:E.
    + apply elem_of_nil in Hs. contradiction.
    + apply elem_of_app. left.
      apply (list_elem_of_fmap_2
               (fun skill : string => ("  " ++ ballot_x ++ " " ++ skill)%string)).
      rewrite slice_to_all; [apply sorted_elem; exact Hs|].
      rewrite sorted_length. lia.
  - intros Hlen. rewrite !elem_of_app. do 5 right. left.
    destruct (missing_skills r) as [|x xs] eqn:E; [simpl in Hlen; lia|].
    apply elem_of_app. right.
    destruct (Z.ltb_spec 10 (Z.of_nat (length (x :: xs)))) as [_|H]; [|lia].
    apply list_elem_of_here.
Qed.

(** X24. The status line, the fifth line of a report, is chosen by the
    percentage alone: EXCELLENT from 80 up, GOOD from 60 up to 80, MODERATE
    from 40 up to 60, WEAK below 40. *)
Theorem display_results_status
    (format_1f : R -> string) (check_mark ballot_x : string)
    (st : state) (r : MatchResult) :
  exists lines,
    stdout (state_after
              (display_results format_1f check_mark ballot_x (Some r)) st)
    = (stdout st ++ lines)%list
    /\ ((80 <= match_percentage r)%R ->
        lines !! 4%nat = Some ("Status: EXCELLENT MATCH " ++ check_mark)%string)
    /\ ((60 <= match_percentage r < 80)%R ->
        lines !! 4%nat = Some ("Status: GOOD MATCH " ++ check_mark)%string)
    /\ ((40 <= match_percentage r < 60)%R ->
        lines !! 4%nat = Some "Status: MODERATE MATCH")
    /\ ((match_percentage r < 40)%R ->
        lines !! 4%nat = Some "Status: WEAK MATCH").
Proof.
  eexists. unfold state_after.
  rewrite (display_results_report format_1f check_mark ballot_x r st).
  cbn [snd stdout]. split; [reflexivity|].
  cbn [app lookup list_lookup].
  destruct (Rge_dec (match_percentage r) 80) as [H80|H80];
    [|destruct (Rge_dec (match_percentage r) 60) as [H60|H60];
      [|destruct (Rge_dec (match_percentage r) 40) as [H40|H40]]];
    repeat split; intros; first [reflexivity | exfalso; lra].
Qed.

(** X25. Running [match] and displaying what it returns, when a file is
    empty or missing and no read fails otherwise: the run returns, and what
    it prints is the line of [load_file] for each missing file, then the
    line of failure, and nothing else. An empty file is not named. *)
Theorem match_and_display_without_text
    (ENGLISH_STOP_WORDS : gset string)
    (format_1f : R -> string) (check_mark ballot_x : string)
    (st : state) (resume_path job_path : string) :
  found_or_missing (files st resume_path) ->
  found_or_missing (files st job_path) ->
  no_text (files st resume_path) \/ no_text (files st job_path) ->
  result_of (match_and_display format_1f check_mark ballot_x
               ENGLISH_STOP_WORDS resume_path job_path) st = Ret tt
  /\ stdout (state_after
               (match_and_display format_1f check_mark ballot_x
                  ENGLISH_STOP_WORDS resume_path job_path) st)
     = (stdout st ++ missing_message st resume_path
          ++ missing_message st job_path
          ++ ["Error: Could not process files."])%list.
Proof.
  intros Hr Hj Hno. unfold result_of, state_after, match_and_display.
  cbv [mbind M_bind].
  rewrite (match_without_text_state ENGLISH_STOP_WORDS _ _ st Hr Hj Hno).
  rewrite display_results_none. cbn [fst snd stdout].
  split; [reflexivity|]. rewrite <- !app_assoc. reflexivity.
Qed.

Lemma match_and_display_without_text_witness :
  let st := new_matcher ["the"; "and"]
              (fun p => if String.eqb p "job.txt" then Ret ""
                        else Raise FileNotFoundError) in
  found_or_missing (files st "resume.txt")
  /\ found_or_missing (files st "job.txt")
  /\ (no_text (files st "resume.txt") \/ no_text (files st "job.txt"))
  /\ stdout (state_after
               (match_and_display (fun _ => "0.0") "v" "x" ∅
                  "resume.txt" "job.txt") st)
     = ["Error: File 'resume.txt' not found."; "Error: Could not process files."].
Proof.
  intros st.
  assert (Hr : found_or_missing (files st "resume.txt")).
  { intros e He. simpl in He. congruence. }
  assert (Hj : found_or_missing (files st "job.txt")).
  { intros e He. simpl in He. congruence. }
  assert (Hno : no_text (files st "resume.txt") \/ no_text (files st "job.txt")).
  { left. right. reflexivity. }
  split; [exact Hr|]. split; [exact Hj|]. split; [exact Hno|].
  exact (proj2 (match_and_display_without_text ∅ (fun _ => "0.0") "v" "x"
                  st "resume.txt" "job.txt" Hr Hj Hno)).
Defined.

(** ** The constructor *)

(** X27. [__init__] sets the stopwords to the words of NLTK and the six
    domain words, whatever the object held before, and touches neither the
    files nor standard output. The matcher it leaves never returns one of
    these words from [preprocess_text]. *)
Theorem init_sets_stop_words
    (english_stopwords : list string) (st : state) (text : string) :
  result_of (__init__ english_stopwords) st = Ret tt
  /\ (forall w, w ∈ stop_words (self (state_after (__init__ english_stopwords) st))
                <-> w ∈ english_stopwords \/ w ∈ domain_words)
  /\ files (state_after (__init__ english_stopwords) st) = files st
  /\ stdout (state_after (__init__ english_stopwords) st) = stdout st
  /\ exists y,
       result_of (preprocess_text text)
         (state_after (__init__ english_stopwords) st) = Ret y
       /\ Forall (fun w => (w ∉ english_stopwords) /\ (w ∉ domain_words)) (split y).
Proof.
  assert (Hset : forall w,
            w ∈ stop_words (self (state_after (__init__ english_stopwords) st))
            <-> w ∈ english_stopwords \/ w ∈ domain_words).
  { intros w. cbv [state_after __init__ mbind M_bind set_self get_self snd self
                   stop_words].
    rewrite elem_of_union, !elem_of_list_to_set. reflexivity. }
  split; [reflexivity|]. split; [exact Hset|].
  split; [reflexivity|]. split; [reflexivity|].
  eexists. unfold result_of. rewrite preprocess_text_run. cbn [fst].
  split; [reflexivity|].
  eapply Forall_impl; [apply normalize_words_kept|].
  intros w [Hw _]. rewrite Hset in Hw. tauto.
Qed.

(** ** The order of [sorted] *)

Section SortedFacts.

Lemma ltb_not_after a b : String.ltb a b = true -> not_after a b.
Proof.
  unfold String.ltb, not_after, String.leb.
  destruct (String.compare a b); intros H; congruence.
Qed.

Lemma not_ltb_not_after a b : String.ltb a b = false -> not_after b a.
Proof.
  unfold String.ltb, not_after, String.leb. rewrite (String.compare_antisym b a).
  destruct (String.compare a b); simpl; intros H; congruence.
Qed.

Lemma not_after_trans a b c : not_after a b -> not_after b c -> not_after a c.
Proof.
  unfold not_after. intros Hab Hbc.
  apply Is_true_true. apply Is_true_true in Hab, Hbc.
  exact (transitivity (R := String.le) Hab Hbc).
Qed.

Lemma not_after_antisym a b : not_after a b -> not_after b a -> a = b.
Proof. apply String.leb_antisym. Qed.

Lemma insert_sorted x l :
  StronglySorted not_after l ->
  StronglySorted not_after (Sorting.insert_stable String.ltb x l).
Proof.
  induction 1 as [|y l Hs IH Hy]; simpl.
  - constructor; constructor.
  - destruct (String.ltb y x) eqn:E.
    + constructor; [exact IH|].
      rewrite (insert_stable_perm _ x l).
      constructor; [apply ltb_not_after; exact E | exact Hy].
    + apply not_ltb_not_after in E.
      constructor; [constructor; assumption|].
      constructor; [exact E|].
      eapply Forall_impl; [exact Hy|].
      intros z Hz. exact (not_after_trans _ _ _ E Hz).
Qed.

(** [sorted] gives the same strings in increasing order. *)
Lemma sorted_sorted l : StronglySorted not_after (sorted l).
Proof.
  unfold sorted. induction l as [|x l IH]; simpl; [constructor|].
  apply insert_sorted. exact IH.
Qed.

Lemma sorted_perm l : Permutation (sorted l) l.
Proof. apply sort_stable_perm. Qed.

Lemma matched_block_shape (line : string -> string) (none : string) skills :
  exists pre shown,
    match skills with
    | [] => [none]
    | _ => map line (sorted skills)
    end = (pre ++ map line shown)%list
    /\ Permutation shown skills
    /\ StronglySorted not_after shown.
Proof.
  destruct skills as [|s skills].
  - exists [none], []. split; [reflexivity|]. split; constructor.
  - exists [], (sorted (s :: skills)). split; [reflexivity|].
    split; [apply sorted_perm | apply sorted_sorted].
Qed.

Lemma missing_block_shape (line : string -> string) (none more : string) skills :
  exists pre shown post hidden,
    match skills with
    | [] => [none]
    | _ =>
        (map line (slice_to (sorted skills) 10)
         ++ (if (10 <? Z.of_nat (length skills))%Z then [more] else []))%list
    end = (pre ++ map line shown ++ post)%list
    /\ Permutation (shown ++ hidden) skills
    /\ StronglySorted not_after (shown ++ hidden)
    /\ length shown = Nat.min 10 (length skills).
Proof.
  destruct skills as [|s skills].
  - exists [none], [], [], []. split; [reflexivity|].
    split; [constructor|]. split; [constructor | reflexivity].
  - exists [], (firstn 10 (sorted (s :: skills))),
      (if (10 <? Z.of_nat (length (s :: skills)))%Z then [more] else []),
      (skipn 10 (sorted (s :: skills))).
    split; [reflexivity|]. rewrite firstn_skipn.
    split; [apply sorted_perm|]. split; [apply sorted_sorted|].
    rewrite length_firstn, sorted_length. reflexivity.
Qed.

End SortedFacts.

(** X28. The report lists the skills in increasing order: the matched
    skills all, each once; of the missing skills the first ten in that
    order, also when the list in the result is in another order. *)
Theorem display_results_alphabetical
    (format_1f : R -> string) (check_mark ballot_x : string)
    (st : state) (r : MatchResult) :
  exists lines before middle after shown_matched shown_missing hidden,
    stdout (state_after
              (display_results format_1f check_mark ballot_x (Some r)) st)
    = (stdout st ++ lines)%list
    /\ lines =
       (before
        ++ map (fun skill : string => ("  " ++ check_mark ++ " " ++ skill)%string)
             shown_matched
        ++ middle
        ++ map (fun skill : string => ("  " ++ ballot_x ++ " " ++ skill)%string)
             shown_missing
        ++ after)%list
    /\ Permutation shown_matched (matched_skills r)
    /\ StronglySorted not_after shown_matched
    /\ Permutation (shown_missing ++ hidden) (missing_skills r)
    /\ StronglySorted not_after (shown_missing ++ hidden)
    /\ length shown_missing = Nat.min 10 (length (missing_skills r)).
Proof.
  unfold state_after.
  rewrite (display_results_report format_1f check_mark ballot_x r st).
  cbn [snd stdout].
  destruct (matched_block_shape
              (fun skill : string => ("  " ++ check_mark ++ " " ++ skill)%string)
              "  (No overlapping skills found)" (matched_skills r))
    as (pre1 & sm & -> & Hp1 & Hs1).
  destruct (missing_block_shape
              (fun skill : string => ("  " ++ ballot_x ++ " " ++ skill)%string)
              "  (All job skills are present in resume)"
              ("  ... and "
               ++ str_int (Z.of_nat (length (missing_skills r)) - 10)
               ++ " more")%string (missing_skills r))
    as (pre2 & sx & post & hidden & -> & Hp2 & Hs2 & Hlen).
  match goal with
  | |- context [ ([?a; ?b; ?c; ?d] ++ [?s] ++ [?mh] ++ (pre1 ++ ?m1) ++ [?xh]
                  ++ (pre2 ++ ?m2 ++ post) ++ [?f])%list ] =>
      exists ([a; b; c; d] ++ [s] ++ [mh] ++ (pre1 ++ m1) ++ [xh]
              ++ (pre2 ++ m2 ++ post) ++ [f])%list,
             ([a; b; c; d; s; mh] ++ pre1)%list, ([xh] ++ pre2)%list,
             (post ++ [f])%list, sm, sx, hidden
  end.
  split; [reflexivity|].
  split; [cbn [app]; rewrite <- !app_assoc; reflexivity|].
  repeat (split; [assumption|]). exact Hlen.
Qed.

(** ** More on the similarity scorer *)

Section ScorerSymmetry.

Import Sklearn.
Local Open Scope R_scope.

Variable sk : gset string.

Lemma dot_comm u v : dot u v = dot v u.
Proof.
  revert v. induction u as [|x u IH]; intros [|y v]; simpl; try reflexivity.
  rewrite IH. ring.
Qed.

Lemma dot_scaled k1 k2 u v :
  dot (map (fun x => x * k1) u) (map (fun x => x * k2) v) = k1 * k2 * dot u v.
Proof.
  revert v. induction u as [|x u IH]; intros [|y v]; simpl; try ring.
  rewrite IH. ring.
Qed.

(** Normalising a row multiplies it by a number. *)
Lemma normalize_scales v : exists k, normalize v = map (fun x => x * k) v.
Proof.
  unfold normalize. destruct (Req_dec_T (norm_l2 v) 0) as [_|_].
  - exists 1. rewrite <- (map_id v) at 1. apply map_ext. intros x. ring.
  - exists (/ norm_l2 v). reflexivity.
Qed.

Lemma cosine_scales u v :
  exists k, cosine_similarity (normalize u) (normalize v) = k * dot u v.
Proof.
  unfold cosine_similarity.
  destruct (normalize_scales u) as [k1 E1]. destruct (normalize_scales v) as [k2 E2].
  destruct (normalize_scales (normalize u)) as [k3 E3].
  destruct (normalize_scales (normalize v)) as [k4 E4].
  rewrite E3, E4, E1, E2, dot_scaled, dot_scaled.
  exists (k3 * k4 * (k1 * k2)). ring.
Qed.

Lemma dot_pointwise_zero {A} (f g : A -> R) l :
  (forall x, x ∈ l -> f x = 0 \/ g x = 0) -> dot (map f l) (map g l) = 0.
Proof.
  induction l as [|x l IH]; intros H; simpl; [reflexivity|].
  rewrite IH by (intros y Hy; apply H; apply elem_of_cons; right; exact Hy).
  destruct (H x (list_elem_of_here x l)) as [E|E]; rewrite E; ring.
Qed.

Lemma count_absent t d : t ∉ d -> count t d = 0%nat.
Proof.
  intros H. unfold count. apply count_occ_not_In.
  rewrite <- list_elem_of_In. exact H.
Qed.

(** Two documents without a common term have similarity zero. *)
Lemma similarity_disjoint a b :
  (forall t, t ∈ analyze sk a -> t ∉ analyze sk b) -> similarity sk a b = 0.
Proof.
  intros Hdis. unfold similarity, fit_transform. cbn [map].
  destruct (vocabulary _) as [|v vocab]; [reflexivity|].
  cbn [map nth]. unfold tfidf_row.
  destruct (cosine_scales
    (map (fun t => INR (count t (analyze sk a))
                   * idf (length [analyze sk a; analyze sk b])
                       (document_frequency [analyze sk a; analyze sk b] t))
         (limit_features [analyze sk a; analyze sk b] 100 (v :: vocab)))
    (map (fun t => INR (count t (analyze sk b))
                   * idf (length [analyze sk a; analyze sk b])
                       (document_frequency [analyze sk a; analyze sk b] t))
         (limit_features [analyze sk a; analyze sk b] 100 (v :: vocab))))
    as [k ->].
  rewrite dot_pointwise_zero; [ring|].
  intros t _. destruct (decide (t ∈ analyze sk a)) as [Hin|Hout].
  - right. rewrite (count_absent _ _ (Hdis t Hin)). simpl. ring.
  - left. rewrite (count_absent _ _ Hout). simpl. ring.
Qed.

Instance not_after_antisymmetric : AntiSymm (=) not_after.
Proof. intros a b. apply not_after_antisym. Qed.

Lemma vocabulary_swap (da db : list string) :
  vocabulary [da; db] = vocabulary [db; da].
Proof.
  apply (StronglySorted_unique not_after).
  - apply sorted_sorted.
  - apply sorted_sorted.
  - unfold vocabulary. rewrite !sort_stable_perm.
    apply NoDup_Permutation; try apply NoDup_remove_dups.
    intros t. rewrite !elem_of_remove_dups. simpl. rewrite !app_nil_r.
    rewrite !elem_of_app. tauto.
Qed.

Lemma sort_stable_ext {A} (b1 b2 : A -> A -> bool) l :
  (forall x y, b1 x y = b2 x y) ->
  Sorting.sort_stable b1 l = Sorting.sort_stable b2 l.
Proof.
  intros Hb. induction l as [|x l IH]; simpl; [reflexivity|].
  rewrite IH. generalize (Sorting.sort_stable b2 l). intros s.
  induction s as [|y s IHs]; simpl; [reflexivity|].
  rewrite Hb, IHs. reflexivity.
Qed.

Lemma limit_features_swap (da db : list string) n vocab :
  limit_features [da; db] n vocab = limit_features [db; da] n vocab.
Proof.
  unfold limit_features. destruct (length vocab <=? n)%nat; [reflexivity|].
  rewrite (sort_stable_ext
             (fun y x => (term_frequency [da; db] x <? term_frequency [da; db] y)%nat)
             (fun y x => (term_frequency [db; da] x <? term_frequency [db; da] y)%nat));
    [reflexivity|].
  intros x y. unfold term_frequency. simpl. f_equal; lia.
Qed.

Lemma document_frequency_swap (da db : list string) t :
  document_frequency [da; db] t = document_frequency [db; da] t.
Proof.
  unfold document_frequency. simpl.
  destruct (bool_decide (t ∈ da)); destruct (bool_decide (t ∈ db)); reflexivity.
Qed.

Lemma tfidf_row_swap (da db : list string) kept d :
  tfidf_row [da; db] kept d = tfidf_row [db; da] kept d.
Proof.
  unfold tfidf_row. f_equal. apply map_ext. intros t.
  rewrite document_frequency_swap. reflexivity.
Qed.

Lemma similarity_symmetric a b : similarity sk a b = similarity sk b a.
Proof.
  unfold similarity, fit_transform. cbn [map].
  rewrite (vocabulary_swap (analyze sk b) (analyze sk a)).
  destruct (vocabulary _) as [|v vocab]; [reflexivity|].
  cbn [map nth]. unfold cosine_similarity.
  rewrite (limit_features_swap (analyze sk b) (analyze sk a)).
  rewrite !(tfidf_row_swap (analyze sk b) (analyze sk a)).
  apply dot_comm.
Qed.

End ScorerSymmetry.

(** X29. In exact arithmetic and for the vectorizer as modelled from
    section 4.3 of the specification, [calculate_match_score] is symmetric:
    the score of resume against job is the score of job against resume. *)
Theorem calculate_match_score_symmetric
    (ENGLISH_STOP_WORDS : gset string) (st : state) (a b : string) :
  result_of (calculate_match_score ENGLISH_STOP_WORDS a b) st
  = result_of (calculate_match_score ENGLISH_STOP_WORDS b a) st.
Proof.
  unfold result_of. rewrite !calculate_match_score_run. cbn [fst].
  f_equal. apply similarity_symmetric.
Qed.

(** X30. In exact arithmetic and for the vectorizer as modelled from
    section 4.3 of the specification, two texts in which the vectorizer
    finds no common term score exactly 0. *)
Theorem calculate_match_score_no_common_term
    (ENGLISH_STOP_WORDS : gset string) (st : state) (a b : string) :
  (forall t, t ∈ Sklearn.analyze ENGLISH_STOP_WORDS a ->
             t ∉ Sklearn.analyze ENGLISH_STOP_WORDS b) ->
  result_of (calculate_match_score ENGLISH_STOP_WORDS a b) st = Ret 0%R.
Proof.
  intros H. unfold result_of. rewrite calculate_match_score_run. cbn [fst].
  f_equal. apply similarity_disjoint. exact H.
Qed.

Lemma calculate_match_score_no_common_term_witness :
  (forall t, t ∈ Sklearn.analyze {["the"; "and"]} "python developer" ->
             t ∉ Sklearn.analyze {["the"; "and"]} "nurse and midwife")
  /\ result_of (calculate_match_score {["the"; "and"]}
                  "python developer" "nurse and midwife")
       (new_matcher ["the"; "and"] (fun _ => Raise FileNotFoundError))
     = Ret 0%R.
Proof.
  assert (H : forall t, t ∈ Sklearn.analyze {["the"; "and"]} "python developer" ->
                        t ∉ Sklearn.analyze {["the"; "and"]} "nurse and midwife").
  { intros t Ht Hn.
    assert (E : Sklearn.analyze {["the"; "and"]} "python developer"
                = ["python"; "developer"]) by (vm_compute; reflexivity).
    assert (F : Sklearn.analyze {["the"; "and"]} "nurse and midwife"
                = ["nurse"; "midwife"]) by (vm_compute; reflexivity).
    rewrite E in Ht. rewrite F in Hn.
    rewrite !elem_of_cons, elem_of_nil in Ht, Hn.
    destruct Ht as [->|[->|[]]]; destruct Hn as [Hn|[Hn|[]]]; discriminate Hn. }
  split; [exact H|].
  exact (calculate_match_score_no_common_term {["the"; "and"]} _
           "python developer" "nurse and midwife" H).
Defined.

(** ** The score in binary64 *)

Section RoundedScore.

Import Sklearn.
Local Open Scope R_scope.


End RoundedScore.

